(** * ProfileManager: capability resolution, delegation and session caches

    A shallow embedding of [lib/ProfileManager.js] (the 2019-2020 revision of
    bedrock-web-profile-manager) together with the properties its
    specification states about it.

    Reading conventions.
    - A JavaScript value that may be [undefined] is an [option]; a string is
      truthy when it is not empty, an object is always truthy.
    - An [async] method is a computation in the monad [M]: it threads the
      manager's mutable fields and the log of collaborator calls, and it
      either returns a value or throws.  State changes made before a throw
      are kept, as in JavaScript.
    - A computation in [M] is one operation run from its call to its
      return.  Operations that other callers have started and that are
      suspended at an [await] show in the state as the promises of
      [_requests]; a promise is given by what it settles to.  An operation
      that finds such a promise returns it, as the source does.
    - The operations of a [Promise.all] are run one after another in array
      order, each to its end, and all of them are run whatever the others
      do.  When several reject, [Promise.all] rejects with the rejection
      that comes first in time, which is for the world to say
      ([settles_first]).  In the source the operations interleave at their
      [await]s, so an operation may repeat a lookup that, here, an earlier
      one has already cached: the three concurrent [getCapability] calls of
      [getAccessManager] each ask the profile service for the agent's
      signer when none is cached, and here only the first does.  No
      statement below counts those calls.
    - [Module Coalescing] has the event loop itself for the entry and exit
      segments of the methods that use [_requests].
    - Collaborators (profile service, EDV client, KMS client, crypto) are the
      fields of a [world]: deterministic functions of the call history.
    - [createProfile], [getProfiles] and the unused [_getAgentSigner] are
      not part of the development. *)

From Stdlib Require Import String Ascii List Arith Lia Bool.
From stdpp Require Import base option list gmap strings pretty.

Set Implicit Arguments.
Local Set Warnings "-register-all".
Local Open Scope string_scope.

(** ** JavaScript values used by the manager *)

(** What a method throws. *)
Inductive js_error : Type :=
| AssertionError (field : string)
    (* the TypeError of [assert.nonEmptyString(x, field)] *)
| NullDeref (base prop : string)
    (* the engine's TypeError for [base.prop] when [base] is undefined/null *)
| TypeError (msg : string)
| Error (msg : string)
| Rejected (msg : string).
    (* a rejection coming out of a collaborator *)

Inductive result (A : Type) : Type :=
| Ok (a : A)
| Err (e : js_error).
Arguments Ok {A} a.
Arguments Err {A} e.

(** [allowedAction] is a single string or an array of strings. *)
Inductive allowed_action : Type :=
| ActionOne (a : string)
| ActionList (l : list string).

(** [invocationTarget] objects: every property may be missing. *)
Record target : Type := Target {
  target_id : option string;
  target_type : option string;
  verificationMethod : option string
}.

(** A reference to a capability: the URL of a root capability (or a key id),
    or a capability object. *)
Inductive capref (Z : Type) : Type :=
| CapUrl (url : string)
| CapObj (z : Z).
Arguments CapUrl {Z} url.
Arguments CapObj {Z} z.

(** Capabilities and delegation requests share one shape. *)
Inductive zcap : Type := Zcap {
  zcap_id : option string;
  referenceId : string;
  allowedAction : allowed_action;
  controller : string;
  invocationTarget : option target;
  parentCapability : option (capref zcap);
  proof : option string
}.

(** A JavaScript object used as a string-keyed map; property order is
    insertion order, which [Object.keys] and [Object.values] follow (keys
    that look like array indices, which would come first, do not occur
    among reference ids). *)
Definition object (V : Type) : Type := list (string * V).

Fixpoint obj_get {V} (k : string) (o : object V) : option V :=
  match o with
  | [] => None
  | (k', v) :: o' => if String.eqb k k' then Some v else obj_get k o'
  end.

(** [o[k] = v]: an existing property keeps its place. *)
Fixpoint obj_set {V} (k : string) (v : V) (o : object V) : object V :=
  match o with
  | [] => [(k, v)]
  | (k', v') :: o' =>
      if String.eqb k k' then (k, v) :: o' else (k', v') :: obj_set k v o'
  end.

Definition obj_keys {V} (o : object V) : list string := map fst o.
Definition obj_values {V} (o : object V) : list V := map snd o.

(** [{...a, ...b}] *)
Definition obj_spread {V} (a b : object V) : object V :=
  fold_left (fun acc kv => obj_set (fst kv) (snd kv) acc) b a.

Definition zcap_map : Type := object zcap.

(** Signers: the account's own signer, or a KMS key used through a
    capability ([new AsymmetricKey({capability, invocationSigner})]). *)
Inductive signer : Type :=
| CapabilityAgentSigner (id : string)
| AsymmetricKey (capability : option zcap) (invocationSigner : signer).

(** Hmac and KeyAgreementKey API objects, as far as the manager reads them. *)
Record key_api : Type := KeyApi {
  key_id : option string;
  key_type : option string;
  key_capability : option zcap;
  key_signer : option signer
}.

Definition truthy (s : option string) : bool :=
  match s with
  | Some s => negb (String.eqb s EmptyString)
  | None => false
  end.

(** A string between double quotes, as the error messages print ids. *)
Definition quoted (s : string) : string :=
  String (ascii_of_nat 34) s +:+ String (ascii_of_nat 34) EmptyString.

(** [`${x}`] for a value that may be undefined. *)
Definition tpl (x : option string) : string := default "undefined" x.

(** [s.startsWith(p)], [s.endsWith(p)] and [s.includes(p)]. *)
Definition startsWith (s p : string) : bool := String.prefix p s.

Definition endsWith (s p : string) : bool :=
  Nat.leb (String.length p) (String.length s) &&
  String.eqb
    (String.substring (Nat.sub (String.length s) (String.length p))
       (String.length p) s) p.

Fixpoint includes (s p : string) : bool :=
  String.prefix p s ||
  match s with
  | EmptyString => false
  | String _ s' => includes s' p
  end.

(** ** Documents and records *)

Record index : Type := Index {
  attribute : string;
  unique : option bool
}.

(** The [type] property of a document: missing, one string, or an array. *)
Inductive type_field : Type :=
| TypeAbsent
| TypeOne (t : string)
| TypeList (l : list string).

Record key_description : Type := KeyDescription {
  kd_id : option string;
  kd_type : option string
}.

Record access_management : Type := AccessManagement {
  am_hmac : key_description;
  am_keyAgreementKey : key_description;
  am_indexes : list index;
  am_zcaps : object string;
  am_edvId : option string
}.

(** Content supplied by a caller ([profileContent], [profileAgentContent]):
    [type] and [zcaps] are read by the manager, every other property is
    carried along in [in_extra]. *)
Record content_input : Type := ContentInput {
  in_type : type_field;
  in_zcaps : option zcap_map;
  in_extra : object string
}.

(** The content of a user document (a profile or a profile agent). *)
Record content : Type := Content {
  content_id : string;
  content_type : type_field;
  content_accessManagement : option access_management;
  content_zcaps : zcap_map;
  content_extra : object string
}.

(** The backend's profile agent record. *)
Record profile_agent : Type := ProfileAgent {
  pa_id : string;
  pa_account : option string;
  pa_profile : string;
  pa_sequence : nat;
  pa_zcaps : zcap_map
}.

Record agent_record : Type := AgentRecord {
  profileAgent : profile_agent
}.

(** The account's CapabilityAgent: its id and the id of the signer that
    [getSigner()] returns. *)
Record capability_agent : Type := CapabilityAgent {
  ca_id : string;
  ca_signer_id : string;
  ca_handle : option string
}.

Record keystore : Type := Keystore {
  keystore_id : string
}.

Record edv_config : Type := EdvConfig {
  cfg_id : option string;
  cfg_sequence : nat;
  cfg_controller : string;
  cfg_referenceId : option string;
  cfg_keyAgreementKey : key_description;
  cfg_hmac : key_description
}.

Record edv_client : Type := EdvClient {
  client_id : option string;
  client_keyAgreementKey : key_api;
  client_hmac : key_api;
  client_indexes : list index
}.

(** [client.ensureIndex(index)] registers the index on the client object. *)
Definition ensureIndex (i : index) (c : edv_client) : edv_client :=
  EdvClient (client_id c) (client_keyAgreementKey c) (client_hmac c)
            (client_indexes c ++ [i])%list.

Record collection : Type := Collection {
  col_type : option string;
  col_edvClient : edv_client;
  col_capability : zcap;
  col_invocationSigner : signer
}.

Record access_manager : Type := AccessManager {
  mgr_profile : content;
  mgr_users : collection
}.

(** [new KeystoreAgent({keystore, capabilityAgent})] with
    [capabilityAgent = new CapabilityAgent({handle, signer})]. *)
Record keystore_agent : Type := KeystoreAgent {
  ka_keystore : keystore;
  ka_handle : string;
  ka_signer : signer
}.

(** The [parentCapabilities] argument of [delegateEdvCapabilities]. *)
Record parent_capabilities : Type := ParentCapabilities {
  pc_edv : option (capref zcap);
  pc_hmac : option (capref zcap);
  pc_keyAgreementKey : option (capref zcap);
  pc_edvRevocations : option (capref zcap)
}.

(** The session data carried by a change notification. *)
Record account_data : Type := AccountData {
  account_id : option string
}.

Record session_data : Type := SessionData {
  sd_account : option account_data
}.

(** ** Collaborators *)

(** Every call that leaves the manager is logged. *)
Inductive event : Type :=
| EvGetAgentByProfile (profile : string) (account : option string)
| EvDelegateAgentCapabilities
    (account : option string) (invoker profileAgentId : string)
| EvUpdateAgentCapabilitySet
    (account : option string) (profileAgentId : string) (zcaps : zcap_map)
| EvEdvGenerateId
| EvEdvWrite (docId : string) (doc : content)
    (capability : capref zcap) (invocationSigner : signer)
| EvEdvRead (capability : zcap) (keyAgreementKey : key_api)
    (invocationSigner : signer)
| EvCreateEdv (config : edv_config) (invocationSigner : signer) (url : string)
| EvGetKeystore (id : string)
| EvGenerateKey (type kmsModule : string) (agent : keystore_agent)
| EvDelegate (signer : signer) (request : zcap)
| EvClearCapabilityAgentCache (handle : string)
| EvEdvClientCacheClear
| EvCapabilityAgentFromCache (handle : option string)
| EvCapabilityAgentFromSecret (handle : option string).

(** What an awaited collaborator call settles to. *)
Inductive response (A : Type) : Type :=
| Resolved (a : A)
| Failed (msg : string).
Arguments Resolved {A} a.
Arguments Failed {A} msg.

(** The collaborators.  Each answer may depend on everything that has been
    asked before (the history), so a backend whose state changes between two
    calls is covered.  [deriveKeystoreId] is the pure helper of
    [lib/utils.js]; [clock] is [Date.now()] and [isoDate] prints it;
    [asymmetricKeyId] is the id the KMS client library gives a key that is
    used through a capability.  [settles_first] is the scheduling of
    concurrent operations as far as it can be observed: when several
    operations of one [Promise.all] reject, the position, among those, of
    the one that rejects first. *)
Record world : Type := World {
  clock : list event -> nat;
  isoDate : nat -> string;
  deriveKeystoreId : string -> string;
  asymmetricKeyId : option zcap -> option string;
  getAgentByProfile :
    list event -> string -> option string -> response agent_record;
  delegateAgentCapabilities :
    list event -> option string -> string -> string -> response zcap;
  updateAgentCapabilitySet :
    list event -> option string -> string -> zcap_map -> response unit;
  generateId : list event -> response string;
  edvWrite :
    list event -> string -> content -> capref zcap -> signer -> response unit;
  edvRead : list event -> zcap -> key_api -> signer -> response content;
  createEdv :
    list event -> edv_config -> signer -> string -> response edv_config;
  getKeystore : list event -> string -> response keystore;
  generateKey :
    list event -> string -> string -> keystore_agent -> response key_api;
  signDelegation : list event -> signer -> zcap -> response (string * string);
  clearCapabilityAgentCache : list event -> string -> response unit;
  clearEdvClientCache : list event -> response unit;
  capabilityAgentFromCache :
    list event -> option string -> response (option capability_agent);
  capabilityAgentFromSecret :
    list event -> option string -> response capability_agent;
  settles_first : list event -> nat
}.

(** ** Caches *)

(** Modelled from the spec: [lib/cache.js] (class [Cache]) is not among the
    sources.  The specification describes it as a key-to-value store with an
    optional max-age whose entries record their insertion time and expire by
    age. *)
Record Cache (V : Type) : Type := MkCache {
  maxAge : option nat;
  entries : gmap string (V * nat)
}.

Definition new_Cache {V} (maxAge : option nat) : Cache V := MkCache maxAge ∅.

Definition expired {V} (now : nat) (c : Cache V) (insertedAt : nat) : bool :=
  match maxAge c with
  | Some age => Nat.ltb age (Nat.sub now insertedAt)
  | None => false
  end.

Definition cache_get {V} (now : nat) (k : string) (c : Cache V) : option V :=
  match entries c !! k with
  | Some (v, insertedAt) => if expired now c insertedAt then None else Some v
  | None => None
  end.

Definition cache_set {V} (now : nat) (k : string) (v : V) (c : Cache V)
  : Cache V :=
  MkCache (maxAge c) (<[k := (v, now)]> (entries c)).

(** [this._cache]: a cache of caches.  Its keys are the fixed namespaces
    ['agent-records'], ['agent-content'], ['invocation-signers'] and one
    [`profileAgent-${id}-zcaps`] per profile agent; a namespace that has not
    been created yet is [None] (absent from [zcap_caches]).  The namespace
    ['agent-signers'] belongs to [_getAgentSigner], which no method calls. *)
Record internal_cache : Type := InternalCache {
  agent_records : option (Cache agent_record);
  agent_content : option (Cache content);
  invocation_signers : option (Cache signer);
  zcap_caches : gmap string (Cache zcap)
}.

(** [this._cache.clear()] *)
Definition cache_clear : internal_cache := InternalCache None None None ∅.

(** [this._requests]: the promises of the requests in flight, by key.  A
    promise is given by what it settles to.  The source keeps one table for
    three kinds of request; they are kept apart here by what their promises
    hold: agent records under [agent-records-<profile id>], capabilities
    under [profileAgent-<agent id>-zcaps-<id>-<invoker>], and agent content
    under the content key.  The promise of a capability request is that of
    the async function [getCapability] starts, which returns a capability
    whenever it returns. *)
Record requests : Type := Requests {
  record_requests : gmap string (result agent_record);
  capability_requests : gmap string (result zcap);
  content_requests : gmap string (result content)
}.

Definition no_requests : requests := Requests ∅ ∅ ∅.

(** ** The manager and its monad *)

(** The fields of a [ProfileManager] instance.  [session] tells whether
    [setSession] has attached one; [keystoreAgent] is only ever set to
    [null] and is left out. *)
Record manager : Type := Manager {
  session : bool;
  accountId : option string;
  capabilityAgent : option capability_agent;
  kmsModule : string;
  edvBaseUrl : string;
  kmsBaseUrl : string;
  _cache : internal_cache;
  _requests : requests;
  trace : list event
}.

Definition M (A : Type) : Type := manager -> result A * manager.

Definition ret {A} (a : A) : M A := fun st => (Ok a, st).

Definition throw {A} (e : js_error) : M A := fun st => (Err e, st).

Definition bind {A B} (m : M A) (k : A -> M B) : M B :=
  fun st =>
    match m st with
    | (Ok a, st') => k a st'
    | (Err e, st') => (Err e, st')
    end.

Declare Scope js_scope.
Delimit Scope js_scope with js.
Notation "x <- c ;; k" := (bind c (fun x => k))
  (at level 100, c at next level, right associativity) : js_scope.
Notation "c ;;; k" := (bind c (fun _ => k))
  (at level 100, right associativity) : js_scope.
Local Open Scope js_scope.

Definition this : M manager := fun st => (Ok st, st).

Definition modify (f : manager -> manager) : M unit :=
  fun st => (Ok tt, f st).

Definition set_cache (c : internal_cache) (st : manager) : manager :=
  Manager (session st) (accountId st) (capabilityAgent st) (kmsModule st)
          (edvBaseUrl st) (kmsBaseUrl st) c (_requests st) (trace st).

Definition set_trace (t : list event) (st : manager) : manager :=
  Manager (session st) (accountId st) (capabilityAgent st) (kmsModule st)
          (edvBaseUrl st) (kmsBaseUrl st) (_cache st) (_requests st) t.

Definition set_session (b : bool) (st : manager) : manager :=
  Manager b (accountId st) (capabilityAgent st) (kmsModule st)
          (edvBaseUrl st) (kmsBaseUrl st) (_cache st) (_requests st)
          (trace st).

Definition set_account (a : option string) (st : manager) : manager :=
  Manager (session st) a (capabilityAgent st) (kmsModule st)
          (edvBaseUrl st) (kmsBaseUrl st) (_cache st) (_requests st)
          (trace st).

Definition set_capabilityAgent (c : option capability_agent) (st : manager)
  : manager :=
  Manager (session st) (accountId st) c (kmsModule st)
          (edvBaseUrl st) (kmsBaseUrl st) (_cache st) (_requests st)
          (trace st).

Definition set_requests (r : requests) (st : manager) : manager :=
  Manager (session st) (accountId st) (capabilityAgent st) (kmsModule st)
          (edvBaseUrl st) (kmsBaseUrl st) (_cache st) r (trace st).

Definition set_agent_records (c : Cache agent_record) (st : manager)
  : manager :=
  let i := _cache st in
  set_cache (InternalCache (Some c) (agent_content i) (invocation_signers i)
               (zcap_caches i)) st.

Definition set_agent_content (c : Cache content) (st : manager) : manager :=
  let i := _cache st in
  set_cache (InternalCache (agent_records i) (Some c) (invocation_signers i)
               (zcap_caches i)) st.

Definition set_invocation_signers (c : Cache signer) (st : manager)
  : manager :=
  let i := _cache st in
  set_cache (InternalCache (agent_records i) (agent_content i) (Some c)
               (zcap_caches i)) st.

Definition set_zcap_cache (k : string) (c : Cache zcap) (st : manager)
  : manager :=
  let i := _cache st in
  set_cache (InternalCache (agent_records i) (agent_content i)
               (invocation_signers i) (<[k := c]> (zcap_caches i))) st.

(** The sub-cache objects the methods hold on to; each is created on first
    use ([if(!this._cache.has(k)) this._cache.set(k, new Cache())]). *)
Definition agent_records_of (st : manager) : Cache agent_record :=
  default (new_Cache (Some 250)) (agent_records (_cache st)).

Definition agent_content_of (st : manager) : Cache content :=
  default (new_Cache None) (agent_content (_cache st)).

Definition invocation_signers_of (st : manager) : Cache signer :=
  default (new_Cache None) (invocation_signers (_cache st)).

Definition zcap_cache_of (k : string) (st : manager) : Cache zcap :=
  default (new_Cache None) (zcap_caches (_cache st) !! k).

(** [if(!this._cache.has(k)) this._cache.set(k, new Cache())] for the
    capability cache of a profile agent. *)
Definition ensure_zcap_cache (k : string) (st : manager) : manager :=
  set_zcap_cache k (zcap_cache_of k st) st.

(** How a call that may share a request gets its result: at once, from the
    promise of a request in flight, or from the promise of the request it
    has started itself. *)
Inductive entered (A : Type) : Type :=
| Returned (a : A)
| Joined (promise : result A)
| Started (promise : result A).
Arguments Returned {A} a.
Arguments Joined {A} promise.
Arguments Started {A} promise.

(** The outcome of a computation as a value: what a promise holds once it
    has settled. *)
Definition settle {A} (m : M A) : M (result A) :=
  fun st => let (r, st') := m st in (Ok r, st').

(** [await promise] for a promise given by what it settles to. *)
Definition awaited {A} (promise : result A) : M A := fun st => (promise, st).

(** [try { m } finally { f }] *)
Definition finally {A} (m : M A) (f : M unit) : M A :=
  fun st =>
    let (r, st1) := m st in
    match f st1 with
    | (Ok _, st2) => (r, st2)
    | (Err e, st2) => (Err e, st2)
    end.

(** The outcomes of the operations of a [Promise.all], in array order. *)
Fixpoint settle_all {A} (l : list (M A)) : M (list (result A)) :=
  match l with
  | [] => ret []
  | m :: l' => r <- settle m ;; rs <- settle_all l' ;; ret (r :: rs)
  end.

Definition fulfilments {A} (rs : list (result A)) : list A :=
  omap (fun r => match r with Ok a => Some a | Err _ => None end) rs.

Definition rejections {A} (rs : list (result A)) : list js_error :=
  omap (fun r => match r with Ok _ => None | Err e => Some e end) rs.

Definition set_capability_requests (m : gmap string (result zcap))
  (r : requests) : requests :=
  Requests (record_requests r) m (content_requests r).

Definition set_record_requests (m : gmap string (result agent_record))
  (r : requests) : requests :=
  Requests m (capability_requests r) (content_requests r).

Definition set_content_requests (m : gmap string (result content))
  (r : requests) : requests :=
  Requests (record_requests r) (capability_requests r) m.

(** Modelled from the spec: [lib/assert.js] is not among the sources.
    [assert.nonEmptyString(x, name)] rejects [undefined] and [''] with a
    TypeError naming the field; otherwise [x] is a usable string. *)
Definition assert_nonEmptyString (x : option string) (name : string)
  : M string :=
  match x with
  | Some s =>
      if String.eqb s EmptyString then throw (AssertionError name) else ret s
  | None => throw (AssertionError name)
  end.

(** Reading a property of a value that may be undefined. *)
Definition deref {A} (x : option A) (base prop : string) : M A :=
  match x with
  | Some a => ret a
  | None => throw (NullDeref base prop)
  end.

(** ** Constants of the module *)

Definition JWE_ALG : string := "ECDH-ES+A256KW".

Definition PROFILE_INVOCATION_ZCAP_REFERENCE_ID : string :=
  "profile-capability-invocation-key".

Module EDVS.
Definition profileDoc : string := "profile-edv-document".
Definition userDocs : string := "user-edv-documents".
Definition userKak : string := "user-edv-kak".
Definition userHmac : string := "user-edv-hmac".
End EDVS.

(** ** Pure helpers *)

Definition _getProfileInvocationZcapKeyReferenceId
  (profileId : string) (zcaps : zcap_map) : option string :=
  List.find
    (fun referenceId =>
       let capabilityInvokeKeyReference := "-key-capabilityInvocation" in
       startsWith referenceId profileId &&
       endsWith referenceId capabilityInvokeKeyReference)
    (obj_keys zcaps).

(** [for(const zcap of zcaps) o[zcap.referenceId] = zcap] *)
Definition by_referenceId (zcaps : list zcap) (o : zcap_map) : zcap_map :=
  fold_left (fun acc zcap => obj_set (referenceId zcap) zcap acc) zcaps o.

(** [if(!Array.isArray(t)) t = [t]], with [[]] for a missing property. *)
Definition as_array (t : type_field) : list string :=
  match t with
  | TypeAbsent => []
  | TypeOne t => [t]
  | TypeList l => l
  end.

(** [for(const t of types) if(!type.includes(t)) type.push(t)] *)
Definition push_types (type types : list string) : list string :=
  fold_left
    (fun type t =>
       if existsb (String.eqb t) type then type else (type ++ [t])%list)
    types type.

(** [{...x.invocationTarget}] for a capability reference [x]. *)
Definition spread_invocationTarget (x : capref zcap) : target :=
  match x with
  | CapObj z => default (Target None None None) (invocationTarget z)
  | CapUrl _ => Target None None None
  end.

Definition is_some {A} (x : option A) : bool :=
  match x with Some _ => true | None => false end.

(** [this.profileManager]: the class assigns no such property, neither in
    its constructor nor in any method, so reading it gives [undefined]. *)
Definition this_profileManager (st : manager) : option manager := None.

(** ** The methods of [ProfileManager] *)

Section ProfileManager.

Variable W : world.

(** [Date.now()] *)
Definition now : M nat := fun st => (Ok (clock W (trace st)), st).

(** [await] on a collaborator call: the call is logged, and its answer is
    the value of the expression or the exception thrown at the [await]. *)
Definition await {A} (ev : event) (ask : list event -> response A) : M A :=
  fun st =>
    let st' := set_trace (trace st ++ [ev])%list st in
    match ask (trace st) with
    | Resolved a => (Ok a, st')
    | Failed msg => (Err (Rejected msg), st')
    end.

(** A collaborator call whose promise is kept for later: the call is
    logged and the promise, given by what it settles to, is the value. *)
Definition call {A} (ev : event) (ask : list event -> response A)
  : M (result A) :=
  fun st =>
    (Ok match ask (trace st) with
        | Resolved a => Ok a
        | Failed msg => Err (Rejected msg)
        end,
     set_trace (trace st ++ [ev])%list st).

(** [Promise.all(l)]: every operation is run; the call fulfils with the
    values in array order when all fulfil and rejects otherwise, with the
    rejection that the world says is first. *)
Definition promise_all {A} (l : list (M A)) : M (list A) :=
  rs <- settle_all l ;;
  st <- this ;;
  match rejections rs with
  | [] => ret (fulfilments rs)
  | e :: es => throw (nth (settles_first W (trace st)) (e :: es) e)
  end.

(** [Promise.all([a, b])] for two operations of different types. *)
Definition promise_all2 {A B} (a : M A) (b : M B) : M (A * B) :=
  ra <- settle a ;;
  rb <- settle b ;;
  st <- this ;;
  match ra, rb with
  | Ok x, Ok y => ret (x, y)
  | Err e, Ok _ => throw e
  | Ok _, Err e => throw e
  | Err ea, Err eb => throw (nth (settles_first W (trace st)) [ea; eb] ea)
  end.

(** Modelled from the spec: [lib/utils.js] is not among the sources.
    [utils.delegateCapability({signer, request})] returns the request as a
    signed capability: it receives an id and the delegation proof made with
    [signer], and its other properties are those of the request. *)
Definition utils_delegateCapability (signer : signer) (request : zcap)
  : M zcap :=
  p <- await (EvDelegate signer request)
         (fun h => signDelegation W h signer request) ;;
  ret (Zcap (Some (fst p)) (referenceId request) (allowedAction request)
            (controller request) (invocationTarget request)
            (parentCapability request) (Some (snd p))).

(** [signer.id] *)
Definition signer_id (s : signer) : option string :=
  match s with
  | CapabilityAgentSigner id => Some id
  | AsymmetricKey capability _ => asymmetricKeyId W capability
  end.

(** [_getAgentRecord({profileId})] up to the point where the call either
    returns or suspends at [await promise]: the record found in the cache,
    the promise of a request in flight, or the promise of the request that
    this call has sent to the profile service and registered. *)
Definition _getAgentRecord_start (profileId : string)
  : M (entered agent_record) :=
  modify (fun st => set_agent_records (agent_records_of st) st) ;;;
  let recordKey := "agent-records-" +:+ profileId in
  st <- this ;;
  t <- now ;;
  match cache_get t recordKey (agent_records_of st) with
  | Some agentRecord => ret (Returned agentRecord)
  | None =>
      match record_requests (_requests st) !! recordKey with
      | Some promise => ret (Joined promise)
      | None =>
          promise <- call (EvGetAgentByProfile profileId (accountId st))
                       (fun h => getAgentByProfile W h profileId
                                   (accountId st)) ;;
          modify (fun st =>
                    set_requests
                      (set_record_requests
                         (<[recordKey := promise]>
                            (record_requests (_requests st)))
                         (_requests st)) st) ;;;
          ret (Started promise)
      end
  end.

(** [_getAgentRecord({profileId})] from call to return. *)
Definition _getAgentRecord (profileId : string) : M agent_record :=
  entered <- _getAgentRecord_start profileId ;;
  let recordKey := "agent-records-" +:+ profileId in
  match entered with
  | Returned agentRecord => ret agentRecord
  | Joined promise => awaited promise
  | Started promise =>
      finally
        (record <- awaited promise ;;
         t' <- now ;;
         modify (fun st =>
                   set_agent_records
                     (cache_set t' recordKey record (agent_records_of st))
                     st) ;;;
         ret record)
        (modify (fun st =>
                   set_requests
                     (set_record_requests
                        (delete recordKey (record_requests (_requests st)))
                        (_requests st)) st))
  end.

Definition _getInvocationSigner
  (profileAgentId : option string) (capabilityInvoker : string) : M signer :=
  assert_nonEmptyString (Some capabilityInvoker) "capabilityInvoker" ;;;
  modify (fun st => set_invocation_signers (invocation_signers_of st) st) ;;;
  let cacheKey := tpl profileAgentId +:+ "-" +:+ capabilityInvoker in
  st <- this ;;
  t <- now ;;
  match cache_get t cacheKey (invocation_signers_of st) with
  | Some invocationSigner => ret invocationSigner
  | None =>
      invocationSigner <-
        (if String.eqb capabilityInvoker "local" then
           agent <- deref (capabilityAgent st) "this.capabilityAgent"
                      "getSigner" ;;
           ret (CapabilityAgentSigner (ca_signer_id agent))
         else if String.eqb capabilityInvoker "agent" then
           if truthy profileAgentId then
             agent <- deref (capabilityAgent st) "this.capabilityAgent" "id" ;;
             zcap <- await
                       (EvDelegateAgentCapabilities (accountId st)
                          (ca_id agent) (tpl profileAgentId))
                       (fun h => delegateAgentCapabilities W h (accountId st)
                                   (ca_id agent) (tpl profileAgentId)) ;;
             ret (AsymmetricKey (Some zcap)
                    (CapabilityAgentSigner (ca_signer_id agent)))
           else
             throw (Error (quoted "profileAgentId" +:+
                           " is required for an agent signer."))
         else throw (Error "Unsupported invoker for capability.")) ;;
      t' <- now ;;
      modify (fun st =>
                set_invocation_signers
                  (cache_set t' cacheKey invocationSigner
                     (invocation_signers_of st)) st) ;;;
      ret invocationSigner
  end.

(** The message of the error [getCapability] throws for a missing zcap. *)
Definition missing_zcap_message (profileAgentId id : string) : string :=
  "The agent " +:+ quoted profileAgentId +:+ " does not have the zcap: "
  +:+ quoted id.

(** The request that [getCapability] starts: the async function of
    l.155-193, which looks the capability up in the agent's capability
    cache and resolves it on a miss. *)
Definition getCapability_request
  (id : string) (profileAgentId : string) (zcaps : zcap_map)
  (profileId : option string) (capabilityInvoker : string) : M zcap :=
  let capabilityCacheKey := "profileAgent-" +:+ profileAgentId +:+ "-zcaps" in
  let capabilityKey :=
    capabilityCacheKey +:+ "-" +:+ id +:+ "-" +:+ capabilityInvoker in
  st <- this ;;
  t <- now ;;
  match cache_get t capabilityKey (zcap_cache_of capabilityCacheKey st) with
  | Some zcap => ret zcap
  | None =>
      agentSigner <- _getInvocationSigner (Some profileAgentId) "agent" ;;
      id <- (if String.eqb id PROFILE_INVOCATION_ZCAP_REFERENCE_ID then
               profileId <- assert_nonEmptyString profileId "profileId" ;;
               ret (tpl (_getProfileInvocationZcapKeyReferenceId
                           profileId zcaps))
             else ret id) ;;
      match obj_get id zcaps with
      | None => throw (Error (missing_zcap_message profileAgentId id))
      | Some originalZcap =>
          zcap <-
            (if String.eqb capabilityInvoker "local" then
               localSigner <- _getInvocationSigner None "local" ;;
               utils_delegateCapability agentSigner
                 (Zcap (zcap_id originalZcap) (referenceId originalZcap)
                       (allowedAction originalZcap)
                       (tpl (signer_id localSigner))
                       (invocationTarget originalZcap)
                       (Some (CapObj originalZcap))
                       (proof originalZcap))
             else if String.eqb capabilityInvoker "agent" then
               ret originalZcap
             else throw (Error "Unsupported invoker for capability.")) ;;
          t' <- now ;;
          modify (fun st =>
                    set_zcap_cache capabilityCacheKey
                      (cache_set t' capabilityKey zcap
                         (zcap_cache_of capabilityCacheKey st)) st) ;;;
          ret zcap
      end
  end.

(** [getCapability({id, profileAgent, profileId, capabilityInvoker})]; of
    [profileAgent] the method reads [id] and [zcaps].  The result is what
    the callers test for truthiness: a capability or [undefined].  The
    promise that the method registers under its key once the request has
    started is removed again by the [finally]; in between only this call
    runs, and it does not read the table. *)
Definition getCapability
  (id : string) (profileAgentId : string) (zcaps : zcap_map)
  (profileId : option string) (capabilityInvoker : string)
  : M (option zcap) :=
  let capabilityCacheKey := "profileAgent-" +:+ profileAgentId +:+ "-zcaps" in
  let capabilityKey :=
    capabilityCacheKey +:+ "-" +:+ id +:+ "-" +:+ capabilityInvoker in
  modify (ensure_zcap_cache capabilityCacheKey) ;;;
  st <- this ;;
  match capability_requests (_requests st) !! capabilityKey with
  | Some promise => zcap <- awaited promise ;; ret (Some zcap)
  | None =>
      finally
        (zcap <- getCapability_request id profileAgentId zcaps profileId
                   capabilityInvoker ;;
         ret (Some zcap))
        (modify (fun st =>
                   set_requests
                     (set_capability_requests
                        (delete capabilityKey
                           (capability_requests (_requests st)))
                        (_requests st)) st))
  end.

(** [new KeyAgreementKey({id: zcap.invocationTarget.id,
    type: zcap.invocationTarget.type, capability: zcap, invocationSigner})],
    and the same for [new Hmac].  [name] is the variable holding the zcap. *)
Definition key_from_zcap
  (name : string) (zcap : option zcap) (invocationSigner : signer)
  : M key_api :=
  zcap <- deref zcap name "invocationTarget" ;;
  t <- deref (invocationTarget zcap) (name +:+ ".invocationTarget") "id" ;;
  ret (KeyApi (target_id t) (target_type t) (Some zcap)
         (Some invocationSigner)).

Definition _getAgentContent
  (profileAgentRecord : agent_record) (capabilityInvoker : string)
  : M content :=
  modify (fun st => set_agent_content (agent_content_of st) st) ;;;
  let pa := profileAgent profileAgentRecord in
  let contentKey :=
    pa_id pa +:+ tpl (pa_account pa) +:+ pa_profile pa
    +:+ pretty (pa_sequence pa) in
  st <- this ;;
  t <- now ;;
  match cache_get t contentKey (agent_content_of st) with
  | Some agentContent => ret agentContent
  | None =>
      capability <- getCapability "userDocument" (pa_id pa) (pa_zcaps pa)
                      None capabilityInvoker ;;
      userKak <- getCapability "userKak" (pa_id pa) (pa_zcaps pa)
                   None capabilityInvoker ;;
      invocationSigner <- _getInvocationSigner (Some (pa_id pa))
                            capabilityInvoker ;;
      match capability with
      | None => throw (Error "Profile access management not initialized.")
      | Some capability =>
          st <- this ;;
          match content_requests (_requests st) !! contentKey with
          | Some promise => awaited promise
          | None =>
              finally
                (keyAgreementKey <- key_from_zcap "userKak" userKak
                                      invocationSigner ;;
                 content <- await
                              (EvEdvRead capability keyAgreementKey
                                 invocationSigner)
                              (fun h => edvRead W h capability
                                          keyAgreementKey
                                          invocationSigner) ;;
                 (* update zcaps to include zcaps from agent record *)
                 ret (Content (content_id content) (content_type content)
                        (content_accessManagement content)
                        (fold_left
                           (fun zcaps zcap =>
                              match obj_get (referenceId zcap) zcaps with
                              | Some _ => zcaps
                              | None => obj_set (referenceId zcap) zcap zcaps
                              end)
                           (obj_values (pa_zcaps pa))
                           (content_zcaps content))
                        (content_extra content)))
                (modify (fun st =>
                           set_requests
                             (set_content_requests
                                (delete contentKey
                                   (content_requests (_requests st)))
                                (_requests st)) st))
          end
      end
  end.

Definition getAgent (profileId : option string) : M content :=
  profileId <- assert_nonEmptyString profileId "profileId" ;;
  profileAgentRecord <- _getAgentRecord profileId ;;
  let pa := profileAgent profileAgentRecord in
  (* determine if `profileAgent` has a userDocument yet *)
  match obj_get "userDocument" (pa_zcaps pa) with
  | None =>
      ret (Content (pa_id pa) TypeAbsent None
             (by_referenceId (obj_values (pa_zcaps pa)) []) [])
  | Some _ => _getAgentContent profileAgentRecord "local"
  end.

(** The [invocationSigner] of the object that [getProfileSigner] returns. *)
Definition getProfileSigner
  (profileId : option string) (capabilityInvoker : string) : M signer :=
  profileId <- assert_nonEmptyString profileId "profileId" ;;
  profileAgent <- getAgent (Some profileId) ;;
  zcap <- getCapability PROFILE_INVOCATION_ZCAP_REFERENCE_ID
            (content_id profileAgent) (content_zcaps profileAgent)
            (Some profileId) capabilityInvoker ;;
  invocationSigner <- _getInvocationSigner (Some (content_id profileAgent))
                        capabilityInvoker ;;
  ret (AsymmetricKey zcap invocationSigner).

Definition not_authorized_message
  (verb profileAgentId profileId : string) : string :=
  "Profile agent " +:+ quoted profileAgentId +:+ " is not authorized to "
  +:+ verb +:+ " " +:+ quoted profileId +:+ ".".

Definition getProfile (id : option string) (capabilityInvoker : string)
  : M content :=
  id <- assert_nonEmptyString id "id" ;;
  profileAgent <- getAgent (Some id) ;;
  let resolve ref :=
    getCapability ref (content_id profileAgent) (content_zcaps profileAgent)
      None capabilityInvoker in
  profileDoc <- resolve EDVS.profileDoc ;;
  capability <- match profileDoc with
                | Some zcap => ret (Some zcap)
                | None => resolve EDVS.userDocs
                end ;;
  userKakZcap <- resolve EDVS.userKak ;;
  invocationSigner <- _getInvocationSigner (Some (content_id profileAgent))
                        capabilityInvoker ;;
  match capability with
  | None =>
      throw (Error (not_authorized_message "read profile"
                      (content_id profileAgent) id))
  | Some capability =>
      keyAgreementKey <- key_from_zcap "userKakZcap" userKakZcap
                           invocationSigner ;;
      await (EvEdvRead capability keyAgreementKey invocationSigner)
        (fun h => edvRead W h capability keyAgreementKey invocationSigner)
  end.

Definition signer_capability (s : signer) : option zcap :=
  match s with
  | AsymmetricKey capability _ => capability
  | CapabilityAgentSigner _ => None
  end.

(** [_getKeystoreId({zcap})]; an [invocationTarget] given as a plain string,
    which the function also accepts, is outside the data model. *)
Definition _getKeystoreId (zcap : option zcap) : M string :=
  zcap <- deref zcap "zcap" "invocationTarget" ;;
  match invocationTarget zcap with
  | None => throw (Error (quoted "invocationTarget" +:+ " not found on zCap."))
  | Some t =>
      if truthy (target_id t) then ret (deriveKeystoreId W (tpl (target_id t)))
      else throw (Error (quoted "invocationTarget" +:+
                         " does not contain a proper id."))
  end.

Definition getProfileKeystoreAgent (profileId : option string)
  : M keystore_agent :=
  profileId <- assert_nonEmptyString profileId "profileId" ;;
  invocationSigner <- getProfileSigner (Some profileId) "local" ;;
  keystoreId <- _getKeystoreId (signer_capability invocationSigner) ;;
  keystore <- await (EvGetKeystore keystoreId)
                (fun h => getKeystore W h keystoreId) ;;
  ret (KeystoreAgent keystore "primary" invocationSigner).

(** Returns [(hmac, keyAgreementKey)]. *)
Definition createEdvRecipientKeys (profileId : option string)
  : M (key_api * key_api) :=
  keystoreAgent <- getProfileKeystoreAgent profileId ;;
  st <- this ;;
  keys <- promise_all2
            (await (EvGenerateKey "keyAgreement" (kmsModule st) keystoreAgent)
               (fun h => generateKey W h "keyAgreement" (kmsModule st)
                           keystoreAgent))
            (await (EvGenerateKey "hmac" (kmsModule st) keystoreAgent)
               (fun h => generateKey W h "hmac" (kmsModule st)
                           keystoreAgent)) ;;
  ret (snd keys, fst keys).

(** A delegation request: no id and no proof yet. *)
Definition request
  (referenceId : string) (allowedAction : allowed_action)
  (controller : string) (invocationTarget : option target)
  (parentCapability : option (capref zcap)) : zcap :=
  Zcap None referenceId allowedAction controller invocationTarget
       parentCapability None.

(** The three requests of [delegateEdvCapabilities], built before anything
    is delegated.  Each takes its target and parent from the fresh key (or
    the EDV id) when that is given and from [parentCapabilities] otherwise;
    the source validates neither (its TODO), so a missing override surfaces
    as the engine's error for reading a property of [undefined]. *)
Definition delegateEdvDocumentsRequest
  (edvId : option string) (parentCapabilities : option parent_capabilities)
  (profileAgentId : string) (referenceIdPrefix : option string) : M zcap :=
  let referenceId := tpl referenceIdPrefix +:+ "-edv-documents" in
  let allowedAction := ActionList ["read"; "write"] in
  if truthy edvId then
    ret (request referenceId allowedAction profileAgentId
           (Some (Target (Some (tpl edvId +:+ "/documents"))
                    (Some "urn:edv:documents") None))
           (Some (CapUrl (tpl edvId +:+ "/zcaps/documents"))))
  else
    pc <- deref parentCapabilities "parentCapabilities" "edv" ;;
    edv <- deref (pc_edv pc) "edv" "invocationTarget" ;;
    ret (request referenceId allowedAction profileAgentId
           (Some (spread_invocationTarget edv)) (Some edv)).

Definition delegateEdvHmacRequest
  (hmac : option key_api) (parentCapabilities : option parent_capabilities)
  (profileAgentId : string) (referenceIdPrefix : option string) : M zcap :=
  let referenceId := tpl referenceIdPrefix +:+ "-edv-hmac" in
  let allowedAction := ActionOne "sign" in
  match hmac with
  | Some hmac =>
      ret (request referenceId allowedAction profileAgentId
             (Some (Target (key_id hmac) (key_type hmac) (key_id hmac)))
             (CapUrl <$> key_id hmac))
  | None =>
      pc <- deref parentCapabilities "parentCapabilities" "hmac" ;;
      hmac <- deref (pc_hmac pc) "hmac" "invocationTarget" ;;
      ret (request referenceId allowedAction profileAgentId
             (Some (spread_invocationTarget hmac)) (Some hmac))
  end.

Definition delegateEdvKakRequest
  (keyAgreementKey : option key_api)
  (parentCapabilities : option parent_capabilities)
  (profileAgentId : string) (referenceIdPrefix : option string) : M zcap :=
  let referenceId := tpl referenceIdPrefix +:+ "-edv-kak" in
  let allowedAction := ActionList ["deriveSecret"; "sign"] in
  match keyAgreementKey with
  | Some keyAgreementKey =>
      ret (request referenceId allowedAction profileAgentId
             (Some (Target (key_id keyAgreementKey) (key_type keyAgreementKey)
                      (key_id keyAgreementKey)))
             (CapUrl <$> key_id keyAgreementKey))
  | None =>
      pc <- deref parentCapabilities "parentCapabilities" "keyAgreementKey" ;;
      kak <- deref (pc_keyAgreementKey pc) "kak" "invocationTarget" ;;
      ret (request referenceId allowedAction profileAgentId
             (Some (spread_invocationTarget kak)) (Some kak))
  end.

(** Returns the [zcaps] array of the result object. *)
Definition delegateEdvCapabilities
  (edvId : option string) (hmac keyAgreementKey : option key_api)
  (parentCapabilities : option parent_capabilities)
  (invocationSigner : signer) (profileAgentId : string)
  (referenceIdPrefix : option string) : M (list zcap) :=
  documentsRequest <- delegateEdvDocumentsRequest edvId parentCapabilities
                        profileAgentId referenceIdPrefix ;;
  hmacRequest <- delegateEdvHmacRequest hmac parentCapabilities
                   profileAgentId referenceIdPrefix ;;
  kakRequest <- delegateEdvKakRequest keyAgreementKey parentCapabilities
                  profileAgentId referenceIdPrefix ;;
  promise_all
    [ utils_delegateCapability invocationSigner documentsRequest;
      utils_delegateCapability invocationSigner hmacRequest;
      utils_delegateCapability invocationSigner kakRequest ].

(** The target of a capability for one document of the EDV; used by both
    document delegations below. *)
Definition document_target
  (edvId : option string) (docId : string)
  (givenTarget : option target) (edvParentCapability : capref zcap)
  : M target :=
  match givenTarget with
  | Some t => ret t
  | None =>
      documentsUrl <-
        (if truthy edvId then ret (tpl edvId +:+ "/documents")
         else
           match edvParentCapability with
           | CapObj z =>
               t <- deref (invocationTarget z)
                      "edvParentCapability.invocationTarget" "id" ;;
               ret (tpl (target_id t))
           | CapUrl _ =>
               throw (NullDeref "edvParentCapability.invocationTarget" "id")
           end) ;;
      ret (Target (Some (documentsUrl +:+ "/" +:+ docId))
             (Some "urn:edv:document") None)
  end.

Definition _delegateProfileUserDocZcap
  (edvId : option string) (profileAgentId docId : string)
  (invocationTarget : option target) (edvParentCapability : capref zcap)
  (invocationSigner : signer) : M zcap :=
  t <- document_target edvId docId invocationTarget edvParentCapability ;;
  utils_delegateCapability invocationSigner
    (request EDVS.profileDoc (ActionList ["read"]) profileAgentId (Some t)
       (Some edvParentCapability)).

(** Returns the object [{userDocument, userKak}]. *)
Definition _delegateAgentRecordZcaps
  (edvId : option string) (profileAgentId docId : string)
  (invocationTarget : option target) (edvParentCapability : capref zcap)
  (keyAgreementKey : key_api) (invocationSigner : signer) : M zcap_map :=
  t <- document_target edvId docId invocationTarget edvParentCapability ;;
  let delegateEdvDocumentRequest :=
    request "profile-agent-edv-document" (ActionList ["read"]) profileAgentId
      (Some t) (Some edvParentCapability) in
  let delegateEdvKakRequest :=
    request EDVS.userKak (ActionList ["deriveSecret"; "sign"]) profileAgentId
      (Some (Target (key_id keyAgreementKey) (key_type keyAgreementKey)
               (key_id keyAgreementKey)))
      (CapUrl <$> key_id keyAgreementKey) in
  zcaps <- promise_all2
             (utils_delegateCapability invocationSigner
                delegateEdvDocumentRequest)
             (utils_delegateCapability invocationSigner
                delegateEdvKakRequest) ;;
  ret [("userDocument", fst zcaps); ("userKak", snd zcaps)].

(** [initializeAccessManagement]; [profileAgentContent], [indexes] and
    [capabilityInvoker] arrive with their defaults applied.  Returns
    [(profile, profileAgent)]. *)
Definition initializeAccessManagement
  (profileId : option string)
  (profileContent profileAgentContent : content_input)
  (hmac keyAgreementKey : option key_api) (edvId : option string)
  (capability revocationCapability : option zcap) (indexes : list index)
  (capabilityInvoker : string) : M (content * content) :=
  profileId <- assert_nonEmptyString profileId "profileId" ;;
  (if xorb (is_some hmac) (is_some keyAgreementKey) then
     throw (TypeError
              ("Both " +:+ quoted "hmac" +:+ " and " +:+
               quoted "keyAgreementKey" +:+
               " must be given or neither must be given."))
   else ret tt) ;;;
  (if Bool.eqb (truthy edvId) (is_some capability) then
     throw (TypeError
              ("Either " +:+ quoted "edvId" +:+ " and " +:+
               quoted "capability" +:+ " must be given, not both."))
   else ret tt) ;;;
  (* create EDV keys for accessing users EDV if not given *)
  st <- this ;;
  let profileManager := this_profileManager st in
  keys <- match hmac with
          | Some hmac =>
              keyAgreementKey <- deref keyAgreementKey "keyAgreementKey"
                                   "id" ;;
              ret (hmac, keyAgreementKey)
          | None =>
              profileManager <- deref profileManager "profileManager"
                                  "createEdvRecipientKeys" ;;
              match createEdvRecipientKeys (Some profileId) profileManager
              with
              | (Ok keys, _) => ret keys
              | (Err e, _) => throw e
              end
          end ;;
  let hmac := fst keys in
  let keyAgreementKey := snd keys in
  (* create access management info *)
  let all_indexes :=
    ([Index "content.id" (Some true); Index "content.type" None]
     ++ indexes)%list in
  let hmac_description := KeyDescription (key_id hmac) (key_type hmac) in
  let kak_description :=
    KeyDescription (key_id keyAgreementKey) (key_type keyAgreementKey) in
  let profileZcaps := obj_spread [] (default [] (in_zcaps profileContent)) in
  let '(profileZcaps, accessManagement, capability) :=
    match capability with
    | Some capability =>
        let profileZcaps :=
          obj_set (referenceId capability) capability profileZcaps in
        let write := [("write", referenceId capability)] in
        match revocationCapability with
        | Some revocationCapability =>
            (obj_set (referenceId revocationCapability) revocationCapability
               profileZcaps,
             AccessManagement hmac_description kak_description all_indexes
               (obj_set "revoke" (referenceId revocationCapability) write)
               None,
             CapObj capability)
        | None =>
            (profileZcaps,
             AccessManagement hmac_description kak_description all_indexes
               write None,
             CapObj capability)
        end
    | None =>
        (* default capability to root zcap *)
        (profileZcaps,
         AccessManagement hmac_description kak_description all_indexes [] edvId,
         CapUrl (tpl edvId +:+ "/zcaps/documents"))
    end in
  (* create client for accessing users EDV *)
  let client :=
    fold_left (fun client index => ensureIndex index client)
      (am_indexes accessManagement)
      (EdvClient edvId keyAgreementKey hmac []) in
  (* create an invocation signer for signing as the profile when writing
     to the EDV *)
  profileAgentRecord <- _getAgentRecord profileId ;;
  let profileAgentId := pa_id (profileAgent profileAgentRecord) in
  let profileCapabilityInvocationKey :=
    obj_get "profileCapabilityInvocationKey"
      (pa_zcaps (profileAgent profileAgentRecord)) in
  invocationSigner <- getProfileSigner (Some profileId) capabilityInvoker ;;
  (* create the user document for the profile; the [recipients] header is
     made of [keyAgreementKey.id] and [JWE_ALG] *)
  profileDocId <- await EvEdvGenerateId (generateId W) ;;
  let type :=
    push_types ["User"; "Profile"] (as_array (in_type profileContent)) in
  let profile :=
    Content profileId (TypeList type) (Some accessManagement) profileZcaps
      (in_extra profileContent) in
  await (EvEdvWrite profileDocId profile capability invocationSigner)
    (fun h => edvWrite W h profileDocId profile capability invocationSigner)
  ;;;
  profileDocZcap <- _delegateProfileUserDocZcap edvId profileAgentId
                      profileDocId None capability invocationSigner ;;
  userEdvZcaps <- delegateEdvCapabilities edvId (Some hmac)
                    (Some keyAgreementKey)
                    (Some (ParentCapabilities (Some capability) None None
                             (CapObj <$> revocationCapability)))
                    invocationSigner profileAgentId (Some "user") ;;
  (* create the user document for the root profile agent *)
  agentDocId <- await EvEdvGenerateId (generateId W) ;;
  let type :=
    push_types ["User"; "Agent"] (as_array (in_type profileAgentContent)) in
  let profileAgentZcaps := by_referenceId userEdvZcaps [] in
  profileCapabilityInvocationKey <-
    deref profileCapabilityInvocationKey "profileCapabilityInvocationKey"
      "referenceId" ;;
  t <- now ;;
  let profileAgent :=
    Content profileAgentId (TypeList type) None
      (obj_spread
         (obj_set (referenceId profileDocZcap) profileDocZcap
            [(referenceId profileCapabilityInvocationKey,
              profileCapabilityInvocationKey)])
         profileAgentZcaps)
      (obj_set "authorizedDate" (isoDate W t)
         (obj_spread [("name", "root")] (in_extra profileAgentContent))) in
  await (EvEdvWrite agentDocId profileAgent capability invocationSigner)
    (fun h => edvWrite W h agentDocId profileAgent capability
                invocationSigner) ;;;
  (* create zcaps for accessing profile agent user doc for storage in
     the agent record *)
  agentRecordZcaps <- _delegateAgentRecordZcaps edvId profileAgentId
                        agentDocId None capability keyAgreementKey
                        invocationSigner ;;
  (* store capabilities for accessing the profile agent's user document and
     the kak in the profileAgent record in the backend *)
  st <- this ;;
  await (EvUpdateAgentCapabilitySet (accountId st) profileAgentId
           agentRecordZcaps)
    (fun h => updateAgentCapabilitySet W h (accountId st) profileAgentId
                agentRecordZcaps) ;;;
  ret (profile, profileAgent).

(** [const [a, b, c] = await Promise.all(ids.map(id => getCapability(...)))]:
    the capabilities for the given reference ids, in order. *)
Definition getCapabilities
  (referenceIds : list string) (profileAgent : content)
  (capabilityInvoker : string) : M (list (option zcap)) :=
  promise_all
    (map (fun id =>
            getCapability id (content_id profileAgent)
              (content_zcaps profileAgent) None capabilityInvoker)
       referenceIds).

(** The element of a destructured array; [undefined] past the end. *)
Definition element {A} (i : nat) (l : list (option A)) : option A :=
  mjoin (l !! i).

Definition getAccessManager
  (profileId : option string) (capabilityInvoker : string)
  : M access_manager :=
  profileId <- assert_nonEmptyString profileId "profileId" ;;
  both <- promise_all2 (getProfile (Some profileId) "local")
            (getAgent (Some profileId)) ;;
  let profile := fst both in
  let profileAgent := snd both in
  let referenceIds := [EDVS.userDocs; EDVS.userKak; EDVS.userHmac] in
  zcaps <- getCapabilities referenceIds profileAgent capabilityInvoker ;;
  let capability := element 0 zcaps in
  let userKak := element 1 zcaps in
  let userHmac := element 2 zcaps in
  invocationSigner <- _getInvocationSigner (Some (content_id profileAgent))
                        capabilityInvoker ;;
  match capability, userKak, userHmac with
  | Some capability, Some _, Some _ =>
      accessManagement <- deref (content_accessManagement profile)
                            "profile.accessManagement" "edvId" ;;
      keyAgreementKey <- key_from_zcap "userKak" userKak invocationSigner ;;
      hmac <- key_from_zcap "userHmac" userHmac invocationSigner ;;
      let edvClient :=
        fold_left (fun client index => ensureIndex index client)
          (am_indexes accessManagement)
          (EdvClient (am_edvId accessManagement) keyAgreementKey hmac []) in
      ret (AccessManager profile
             (Collection (Some "User") edvClient capability
                invocationSigner))
  | _, _, _ =>
      throw (Error (not_authorized_message "manage access for profile"
                      (content_id profileAgent) profileId))
  end.

Definition createProfileEdv (profileId referenceId : option string)
  : M edv_client :=
  profileId <- assert_nonEmptyString profileId "profileId" ;;
  both <- promise_all2 (getProfileSigner (Some profileId) "local")
            (createEdvRecipientKeys (Some profileId)) ;;
  let invocationSigner := fst both in
  let hmac := fst (snd both) in
  let keyAgreementKey := snd (snd both) in
  (* create edv *)
  let config :=
    EdvConfig None 0 profileId referenceId
      (KeyDescription (key_id keyAgreementKey) (key_type keyAgreementKey))
      (KeyDescription (key_id hmac) (key_type hmac)) in
  st <- this ;;
  config <- await (EvCreateEdv config invocationSigner (edvBaseUrl st))
              (fun h => createEdv W h config invocationSigner
                          (edvBaseUrl st)) ;;
  ret (EdvClient (cfg_id config) keyAgreementKey hmac []).

(** [delegateCapability({profileId, request})]; the keystore id the method
    hands to [utils.delegateCapability] is looked up and passed along. *)
Definition delegateCapability (profileId : option string) (request : zcap)
  : M zcap :=
  profileId <- assert_nonEmptyString profileId "profileId" ;;
  signer <- getProfileSigner (Some profileId) "local" ;;
  keystoreAgent <- getProfileKeystoreAgent (Some profileId) ;;
  utils_delegateCapability signer request.

(** Returns [(edvClient, capability, invocationSigner)]. *)
Definition getProfileEdvAccess
  (profileId referenceIdPrefix : option string) (capabilityInvoker : string)
  : M (edv_client * zcap * signer) :=
  profileId <- assert_nonEmptyString profileId "profileId" ;;
  let documents := tpl referenceIdPrefix +:+ "-edv-documents" in
  let hmac := tpl referenceIdPrefix +:+ "-edv-hmac" in
  let kak := tpl referenceIdPrefix +:+ "-edv-kak" in
  profileAgent <- getAgent (Some profileId) ;;
  let referenceIds := [documents; kak; hmac] in
  zcaps <- getCapabilities referenceIds profileAgent capabilityInvoker ;;
  let documentsZcap := element 0 zcaps in
  let kakZcap := element 1 zcaps in
  let hmacZcap := element 2 zcaps in
  invocationSigner <- _getInvocationSigner (Some (content_id profileAgent))
                        capabilityInvoker ;;
  match documentsZcap, hmacZcap, kakZcap with
  | Some documentsZcap, Some _, Some _ =>
      keyAgreementKey <- key_from_zcap "kakZcap" kakZcap invocationSigner ;;
      hmac <- key_from_zcap "hmacZcap" hmacZcap invocationSigner ;;
      ret (EdvClient None keyAgreementKey hmac [], documentsZcap,
           invocationSigner)
  | _, _, _ =>
      throw (Error (not_authorized_message "access profile"
                      (content_id profileAgent) profileId))
  end.

Definition getCollection (profileId referenceIdPrefix type : option string)
  : M collection :=
  profileId <- assert_nonEmptyString profileId "profileId" ;;
  access <- getProfileEdvAccess (Some profileId) referenceIdPrefix "local" ;;
  let '(edvClient, capability, invocationSigner) := access in
  let edvClient := ensureIndex (Index "content.id" (Some true)) edvClient in
  let edvClient := ensureIndex (Index "content.type" None) edvClient in
  ret (Collection type edvClient capability invocationSigner).

(** *** Session binding *)

Definition _resetCache : M unit := modify (set_cache cache_clear).

(** [_sessionChanged({authentication, newData})].  [CapabilityAgent] and the
    EDV client cache are collaborators: their calls are awaited and may
    reject.  [this._resetCache()] is not awaited; its body runs at once. *)
Definition _sessionChanged (authentication : bool) (newData : session_data)
  : M unit :=
  let newAccountId := sd_account newData ≫= account_id in
  st <- this ;;
  (* clear cache *)
  (if truthy (accountId st)
      && negb (bool_decide (accountId st = newAccountId)) then
     await (EvClearCapabilityAgentCache (tpl (accountId st)))
       (fun h => clearCapabilityAgentCache W h (tpl (accountId st))) ;;;
     await EvEdvClientCacheClear (clearEdvClientCache W)
   else ret tt) ;;;
  (* update state *)
  modify (set_account newAccountId) ;;;
  modify (set_capabilityAgent None) ;;;
  _resetCache ;;;
  if negb (authentication || is_some (sd_account newData)) then
    (* no account in session, return *)
    ret tt
  else
    cached <- await (EvCapabilityAgentFromCache newAccountId)
                (fun h => capabilityAgentFromCache W h newAccountId) ;;
    modify (set_capabilityAgent cached) ;;;
    match cached with
    | Some _ => ret tt
    | None =>
        (* generate a secret and load a new capability agent *)
        agent <- await (EvCapabilityAgentFromSecret newAccountId)
                   (fun h => capabilityAgentFromSecret W h newAccountId) ;;
        modify (set_capabilityAgent (Some agent))
    end.

(** [setSession({session})] with [session.data = data]; later changes of the
    session arrive as calls of [_sessionChanged]. *)
Definition setSession (data : session_data) : M unit :=
  st <- this ;;
  if session st then throw (Error "Already attached to a session.")
  else
    modify (set_session true) ;;;
    (* emulate initial session change event *)
    _sessionChanged false data.

End ProfileManager.

(** ** A concrete world

    A backend with one profile agent per profile whose record holds only the
    profile's capability-invocation key (access management not initialized
    yet), collaborators that always answer, and a clock that advances one
    millisecond per collaborator call.  [backend] is the same with further
    capabilities in the agent's record and, when one is given, a document
    that every read of the EDV returns. *)
Module Demo.

Definition profileId : string := "did:v1:test:abc".
Definition agentId : string := "did:key:z6MkAgent".
Definition account : string := "urn:uuid:ffaf5d84".
Definition edvId : string := "https://edvs/edv1".

Definition invocationKey (profile : string) : zcap :=
  Zcap (Some "urn:zcap:invocation-key")
    (profile +:+ "-key-capabilityInvocation") (ActionOne "sign") agentId
    (Some (Target (Some "https://kms/keystores/1/keys/k1")
             (Some "Ed25519VerificationKey2018") None))
    (Some (CapUrl "https://kms/keystores/1/keys/k1")) (Some "backend").

Definition agentKey (invoker : string) : zcap :=
  Zcap (Some "urn:zcap:agent-key") "agent-key" (ActionOne "sign") invoker
    (Some (Target (Some "https://kms/keystores/2/keys/a1")
             (Some "Ed25519VerificationKey2018") None))
    None (Some "backend").

Definition record_with (zcaps : zcap_map) (profile : string)
  (account : option string) : agent_record :=
  AgentRecord
    (ProfileAgent agentId account profile 0
       (("profileCapabilityInvocationKey", invocationKey profile) :: zcaps)).

Definition record : string -> option string -> agent_record :=
  record_with [].

Definition backend (zcaps : zcap_map) (document : option content) : world :=
  World
    (fun h => length h)
    (fun _ => "2020-01-01T00:00:00.000Z")
    (fun _ => "https://kms/keystores/1")
    (fun z =>
       match z with
       | Some z =>
           match invocationTarget z with
           | Some t => target_id t
           | None => None
           end
       | None => None
       end)
    (fun _ profile account => Resolved (record_with zcaps profile account))
    (fun _ _ invoker _ => Resolved (agentKey invoker))
    (fun _ _ _ _ => Resolved tt)
    (fun h => Resolved ("z" +:+ pretty (length h)))
    (fun _ _ _ _ _ => Resolved tt)
    (fun _ _ _ _ =>
       match document with
       | Some content => Resolved content
       | None => Failed "NotFoundError"
       end)
    (fun _ config _ _ => Resolved config)
    (fun _ id => Resolved (Keystore id))
    (fun _ type _ _ =>
       Resolved (KeyApi (Some ("https://kms/keystores/1/keys/" +:+ type))
                   (Some type) None None))
    (fun h _ _ => Resolved ("urn:zcap:" +:+ pretty (length h), "signed"))
    (fun _ _ => Resolved tt)
    (fun _ => Resolved tt)
    (fun _ _ => Resolved None)
    (fun _ handle =>
       Resolved (CapabilityAgent "did:key:z6MkAccount"
                   "did:key:z6MkAccount#z6MkAccount" handle))
    (fun _ => 0).

Definition world : world := backend [] None.

(** A capability of the profile agent for a resource of the users EDV. *)
Definition edvZcap (referenceId type : string) : zcap :=
  Zcap (Some ("urn:zcap:" +:+ referenceId)) referenceId (ActionOne "read")
    agentId
    (Some (Target (Some ("https://edvs/edv1/" +:+ referenceId)) (Some type)
             None))
    (Some (CapUrl "https://edvs/edv1/zcaps/documents")) (Some "profile").

(** A freshly constructed manager, and the same after [setSession]. *)
Definition fresh : manager :=
  Manager false None None "ssm-v1" "https://edvs" "https://kms"
    cache_clear no_requests [].

Definition attached : manager :=
  snd (setSession world (SessionData (Some (AccountData (Some account))))
         fresh).

Definition hmac : key_api :=
  KeyApi (Some "https://kms/keystores/1/keys/hmac")
    (Some "Sha256HmacKey2019") None None.

Definition keyAgreementKey : key_api :=
  KeyApi (Some "https://kms/keystores/1/keys/kak")
    (Some "X25519KeyAgreementKey2019") None None.

Definition signer : signer :=
  AsymmetricKey (Some (invocationKey profileId))
    (CapabilityAgentSigner "did:key:z6MkAccount#z6MkAccount").

End Demo.

(** ** Notions used in the statements *)

(** Following the specification's words for the type array: the caller's
    types that are not already present, each once, in first-seen order.
    [seen] is what the array holds so far. *)
Fixpoint first_seen (seen types : list string) : list string :=
  match types with
  | [] => []
  | t :: types =>
      if existsb (String.eqb t) seen then first_seen seen types
      else t :: first_seen (seen ++ [t])%list types
  end.

(** The capability [getCapability] takes as the base: the entry of the
    agent's capability map under [id], or, for the well-known id of the
    profile's invocation key, under the reference id found by
    [_getProfileInvocationZcapKeyReferenceId]. *)
Definition base_capability
  (id : string) (profileId : option string) (zcaps : zcap_map)
  : option zcap :=
  if String.eqb id PROFILE_INVOCATION_ZCAP_REFERENCE_ID then
    if truthy profileId then
      obj_get (tpl (_getProfileInvocationZcapKeyReferenceId (tpl profileId)
                      zcaps)) zcaps
    else None
  else obj_get id zcaps.

(** The capability caches are created by [new Cache()]: no max age. *)
Definition zcap_caches_keep (st : manager) : Prop :=
  forall namespace c,
    zcap_caches (_cache st) !! namespace = Some c -> maxAge c = None.

(** The errors of [getProfile], [getAccessManager] and
    [getProfileEdvAccess] that say the profile agent is not authorized:
    their text starts with [Profile agent ]. *)
Definition is_not_authorized (e : js_error) : bool :=
  match e with
  | Error msg => String.prefix "Profile agent " msg
  | _ => false
  end.

(** A promise that does not reject with a "not authorized" error. *)
Definition quiet {A} (promise : result A) : Prop :=
  match promise with
  | Ok _ => True
  | Err e => is_not_authorized e = false
  end.

(** No request in flight rejects with a "not authorized" error.  The
    requests are those of [_getAgentRecord], [getCapability] and
    [_getAgentContent], so this is what [returns] below says of them; it
    holds of the empty table in particular. *)
Definition requests_quiet (st : manager) : Prop :=
  map_Forall (fun _ => quiet) (record_requests (_requests st)) /\
  map_Forall (fun _ => quiet) (capability_requests (_requests st)) /\
  map_Forall (fun _ => quiet) (content_requests (_requests st)).

(** [returns m Q]: whenever [m] returns a value it satisfies [Q], and
    whenever [m] throws, the error is not one of the "not authorized"
    errors; the requests in flight stay quiet. *)
Definition returns {A} (m : M A) (Q : A -> Prop) : Prop :=
  forall st r st', requests_quiet st -> m st = (r, st') ->
    requests_quiet st' /\
    match r with
    | Ok a => Q a
    | Err e => is_not_authorized e = false
    end.

(** The state after a collaborator call has been logged. *)
Definition logged (ev : event) (st : manager) : manager :=
  set_trace (trace st ++ [ev])%list st.

(** The state after [capabilityCache.set(capabilityKey, zcap)]. *)
Definition zcap_stored (W : world) (namespace key : string) (zcap : zcap)
  (st : manager) : manager :=
  set_zcap_cache namespace
    (cache_set (clock W (trace st)) key zcap (zcap_cache_of namespace st)) st.

(** ** Requests in flight

    The event loop runs one synchronous segment at a time; an [async]
    method is cut at its [await]s.  This module has the segments of
    [getCapability] and [_getAgentRecord] that touch [this._requests]: the
    entry of a call up to its first suspension (look the key up, return the
    promise found or start the work and register its promise) and the
    owner's continuation once the promise has settled (the [finally] that
    deletes the key).  A promise is a number; settling one is a step of its
    own.  [executions] logs each start of the underlying work (the async
    body that delegates, the fetch from the profile service).  The max age
    of the agent record cache is left out: expiry can only turn a hit into
    a miss. *)
Module Coalescing.
Section Loop.

Variable V : Type.

Inductive promise_state : Type :=
| Pending
| Fulfilled (v : V)
| RejectedWith (e : js_error).

Record loop : Type := Loop {
  _requests : gmap string nat;
  promises : list promise_state;
  records : gmap string V;
  executions : list string
}.

(** [let promise = this._requests.get(key); if(promise) return promise;
    promise = <start the work>; this._requests.set(key, promise);] *)
Definition enter (key : string) (l : loop) : nat * loop :=
  match _requests l !! key with
  | Some promise => (promise, l)
  | None =>
      let promise := length (promises l) in
      (promise,
       Loop (<[key := promise]> (_requests l)) (promises l ++ [Pending])
            (records l) (executions l ++ [key]))
  end.

(** [finally { this._requests.delete(key); }] *)
Definition leave (key : string) (l : loop) : loop :=
  Loop (delete key (_requests l)) (promises l) (records l) (executions l).

(** A pending promise settles; a settled one never changes. *)
Definition settle (promise : nat) (outcome : promise_state) (l : loop)
  : loop :=
  match promises l !! promise with
  | Some Pending =>
      Loop (_requests l) (<[promise := outcome]> (promises l)) (records l)
           (executions l)
  | _ => l
  end.

(** What a caller holds after the entry segment: a value, or the promise
    it awaits. *)
Definition getCapability_call (capabilityKey : string) (l : loop)
  : (V + nat) * loop :=
  let (promise, l) := enter capabilityKey l in (inr promise, l).

Definition getCapability_finally (capabilityKey : string) (l : loop) : loop :=
  leave capabilityKey l.

Definition _getAgentRecord_call (recordKey : string) (l : loop)
  : (V + nat) * loop :=
  match records l !! recordKey with
  | Some agentRecord => (inl agentRecord, l)
  | None => let (promise, l) := enter recordKey l in (inr promise, l)
  end.

(** [const record = await promise; agentRecordCache.set(recordKey, record);]
    and the [finally]. *)
Definition _getAgentRecord_resume (recordKey : string) (promise : nat)
  (l : loop) : loop :=
  leave recordKey
    match promises l !! promise with
    | Some (Fulfilled record) =>
        Loop (_requests l) (promises l) (<[recordKey := record]> (records l))
             (executions l)
    | _ => l
    end.

Inductive action : Type :=
| GetCapability (capabilityKey : string)
| GetCapabilityFinally (capabilityKey : string)
| GetAgentRecord (recordKey : string)
| GetAgentRecordResume (recordKey : string) (promise : nat)
| Settle (promise : nat) (outcome : promise_state).

Definition step (a : action) (l : loop)
  : option (string * (V + nat)) * loop :=
  match a with
  | GetCapability key =>
      let (r, l) := getCapability_call key l in (Some (key, r), l)
  | GetCapabilityFinally key => (None, getCapability_finally key l)
  | GetAgentRecord key =>
      let (r, l) := _getAgentRecord_call key l in (Some (key, r), l)
  | GetAgentRecordResume key promise =>
      (None, _getAgentRecord_resume key promise l)
  | Settle promise outcome => (None, settle promise outcome l)
  end.

(** A schedule: the segments in the order the event loop runs them.  The
    result lists what each call holds, by key. *)
Fixpoint run (acts : list action) (l : loop)
  : list (string * (V + nat)) * loop :=
  match acts with
  | [] => ([], l)
  | a :: acts =>
      let (o, l) := step a l in
      let (os, l) := run acts l in
      (match o with Some o => o :: os | None => os end, l)
  end.

Definition calls (key : string) (a : action) : bool :=
  match a with
  | GetCapability k | GetAgentRecord k => String.eqb k key
  | _ => false
  end.

(** The schedule stays before the settling of the request for [key]: it
    neither settles the promise registered for [key] nor runs the owner's
    continuation for [key].  Anything may happen to other keys. *)
Fixpoint in_flight (key : string) (acts : list action) (l : loop) : Prop :=
  match acts with
  | [] => True
  | a :: acts =>
      match a with
      | Settle promise _ => _requests l !! key <> Some promise
      | GetCapabilityFinally k | GetAgentRecordResume k _ => k <> key
      | GetCapability _ | GetAgentRecord _ => True
      end /\ in_flight key acts (snd (step a l))
  end.

(** A request for [key] is registered and pending. *)
Definition registered (key : string) (p : nat) (l : loop) : Prop :=
  _requests l !! key = Some p /\ promises l !! p = Some Pending /\
  records l !! key = None.

(** Nothing is registered or cached for [key]. *)
Definition unregistered (key : string) (l : loop) : Prop :=
  _requests l !! key = None /\ records l !! key = None.

End Loop.

Arguments Pending {V}.
Arguments RejectedWith {V} e.
Arguments GetCapability {V} capabilityKey.
Arguments GetCapabilityFinally {V} capabilityKey.
Arguments GetAgentRecord {V} recordKey.
Arguments GetAgentRecordResume {V} recordKey promise.

End Coalescing.

(** Calls that reach the encrypted data vault. *)
Definition is_edv_event (ev : event) : bool :=
  match ev with
  | EvEdvGenerateId | EvEdvWrite _ _ _ _ | EvEdvRead _ _ _ | EvCreateEdv _ _ _
  | EvEdvClientCacheClear => true
  | _ => false
  end.

(** ** Reasoning about computations *)

Unset Implicit Arguments.

Lemma bind_Ok {A B} (m : M A) (k : A -> M B) st b st' :
  bind m k st = (Ok b, st') ->
  exists a st1, m st = (Ok a, st1) /\ k a st1 = (Ok b, st').
Proof.
  unfold bind. destruct (m st) as [[a|e] st1]; intros H.
  - eauto.
  - discriminate.
Qed.

Lemma bind_step {A B} (m : M A) (k : A -> M B) st a st1 :
  m st = (Ok a, st1) -> bind m k st = k a st1.
Proof. unfold bind. intros ->. reflexivity. Qed.

Lemma bind_fail {A B} (m : M A) (k : A -> M B) st e st1 :
  m st = (Err e, st1) -> bind m k st = (Err e, st1).
Proof. unfold bind. intros ->. reflexivity. Qed.

Lemma assert_nonEmptyString_Ok x name st s st' :
  assert_nonEmptyString x name st = (Ok s, st') ->
  x = Some s /\ s <> EmptyString /\ st' = st.
Proof.
  unfold assert_nonEmptyString. destruct x as [s0|]; [|discriminate].
  destruct (String.eqb_spec s0 EmptyString); unfold throw, ret; intros H.
  - discriminate.
  - inversion H. subst. auto.
Qed.

Lemma assert_nonEmptyString_pass s name st :
  s <> EmptyString -> assert_nonEmptyString (Some s) name st = (Ok s, st).
Proof.
  intros Hs. unfold assert_nonEmptyString.
  destruct (String.eqb_spec s EmptyString); [contradiction | reflexivity].
Qed.

Lemma assert_nonEmptyString_reject x name st :
  x = None \/ x = Some EmptyString ->
  assert_nonEmptyString x name st = (Err (AssertionError name), st).
Proof. intros [-> | ->]; reflexivity. Qed.

Lemma truthy_Some s : s <> EmptyString -> truthy (Some s) = true.
Proof.
  intros Hs. unfold truthy.
  destruct (String.eqb_spec s EmptyString); [contradiction | reflexivity].
Qed.

Lemma finally_modify {A} (m : M A) f st :
  finally m (modify f) st = (fst (m st), f (snd (m st))).
Proof. unfold finally, modify. destruct (m st). reflexivity. Qed.

Lemma promise_all2_Ok {A B} W (a : M A) (b : M B) st p st' :
  promise_all2 W a b st = (Ok p, st') ->
  exists st1, a st = (Ok (fst p), st1) /\ b st1 = (Ok (snd p), st').
Proof.
  unfold promise_all2, bind, settle, this, ret, throw.
  destruct (a st) as [[x|e] st1] eqn:Ha;
    destruct (b st1) as [[y|e'] st2] eqn:Hb;
    intros H; inversion H; subst; simpl; eauto.
Qed.

(** [Promise.all] is its outcomes put together. *)
Lemma promise_all_settle_all {A} W (l : list (M A)) st :
  exists rs st',
    settle_all l st = (Ok rs, st') /\
    length rs = length l /\
    promise_all W l st =
      (match rejections rs with
       | [] => Ok (fulfilments rs)
       | e :: es => Err (nth (settles_first W (trace st')) (e :: es) e)
       end, st').
Proof.
  assert (H : exists rs st',
            settle_all l st = (Ok rs, st') /\ length rs = length l).
  { revert st. induction l as [|m l IH]; intros st; cbn.
    - eexists _, _. split; reflexivity.
    - unfold bind, settle. destruct (m st) as [r st1].
      destruct (IH st1) as (rs & st' & -> & Hlen).
      eexists _, _. split; [reflexivity|]. cbn. now rewrite Hlen. }
  destruct H as (rs & st' & H & Hlen). exists rs, st'.
  split; [exact H|]. split; [exact Hlen|].
  unfold promise_all, bind. rewrite H. cbn.
  destruct (rejections rs); reflexivity.
Qed.

Lemma promise_all_nil_Ok {A} W st (xs : list A) st' :
  promise_all W [] st = (Ok xs, st') -> xs = [] /\ st' = st.
Proof. intros H. inversion H. auto. Qed.

Lemma promise_all_cons_Ok {A} W (m : M A) l st xs st' :
  promise_all W (m :: l) st = (Ok xs, st') ->
  exists x xs' st1,
    m st = (Ok x, st1) /\ promise_all W l st1 = (Ok xs', st') /\
    xs = x :: xs'.
Proof.
  intros H. unfold promise_all in H. cbn [settle_all] in H.
  unfold bind at 1 2, settle in H.
  destruct (m st) as [r st1] eqn:Hm.
  destruct (promise_all_settle_all W l st1) as (rs & st2 & Hs & _ & Hp).
  unfold bind at 1 2 in H. rewrite Hs in H.
  unfold ret at 1, this in H. cbn [rejections fulfilments omap] in H.
  destruct r as [x|e]; cbn in H.
  - fold (rejections rs) in H. fold (fulfilments rs) in H.
    destruct (rejections rs); [|discriminate].
    inversion H; subst. exists x, (fulfilments rs), st1. auto.
  - discriminate.
Qed.

Lemma utils_delegateCapability_Ok W s r st z st' :
  utils_delegateCapability W s r st = (Ok z, st') ->
  exists id p,
    signDelegation W (trace st) s r = Resolved (id, p) /\
    z = Zcap (Some id) (referenceId r) (allowedAction r) (controller r)
          (invocationTarget r) (parentCapability r) (Some p) /\
    st' = set_trace (trace st ++ [EvDelegate s r]) st.
Proof.
  unfold utils_delegateCapability, bind, await, ret.
  destruct (signDelegation W (trace st) s r) as [[id p]|]; intros H;
    inversion H; subst.
  exists id, p. auto.
Qed.

(** Two closed values differ. *)
Ltac distinct :=
  let H := fresh in intro H; vm_compute in H; discriminate H.

(** Inversion of a computation that returned: one hypothesis per step. *)
Ltac inv_ok H :=
  lazymatch type of H with
  | bind _ _ _ = (Ok _, _) =>
      let a := fresh "a" in
      let s := fresh "st" in
      let Ha := fresh "H" in
      apply bind_Ok in H as (a & s & Ha & H); inv_ok Ha; inv_ok H
  | ret _ _ = (Ok _, _) => unfold ret in H; inversion H; subst; clear H
  | throw _ _ = (Ok _, _) => discriminate H
  | this _ = (Ok _, _) => unfold this in H; inversion H; subst; clear H
  | modify _ _ = (Ok _, _) => unfold modify in H; inversion H; subst; clear H
  | deref ?x _ _ _ = (Ok _, _) =>
      destruct x eqn:?; [|discriminate H];
      unfold deref, ret in H; inversion H; subst; clear H
  | assert_nonEmptyString _ _ _ = (Ok _, _) =>
      apply assert_nonEmptyString_Ok in H as (? & ? & ?); subst
  | promise_all2 _ _ _ _ = (Ok ?p, _) =>
      let s := fresh "st" in
      let Ha := fresh "H" in
      apply promise_all2_Ok in H as (s & Ha & H);
      try (is_var p; destruct p); cbn [fst snd] in Ha, H;
      inv_ok Ha; inv_ok H
  | promise_all _ [] _ = (Ok _, _) =>
      apply promise_all_nil_Ok in H as [? ?]; subst
  | promise_all _ (_ :: _) _ = (Ok _, _) =>
      let s := fresh "st" in
      let Ha := fresh "H" in
      apply promise_all_cons_Ok in H as (? & ? & s & Ha & H & ?);
      inv_ok Ha; inv_ok H; subst
  | utils_delegateCapability _ _ _ _ = (Ok _, _) =>
      apply utils_delegateCapability_Ok in H as (? & ? & ? & ? & ?)
  | _ => idtac
  end.

(** ** Delegation of the EDV capabilities *)

(** C1. Called with an EDV id, an hmac key and a key agreement key, a
    [delegateEdvCapabilities] that returns gives exactly three capabilities,
    in the order documents, hmac, kak: their reference ids are the prefix
    followed by [-edv-documents], [-edv-hmac] and [-edv-kak]; their allowed
    actions are [['read','write']], ['sign'] and [['deriveSecret','sign']];
    their controller is the given profile agent id; their targets are
    [<edvId>/documents] of type [urn:edv:documents], the hmac key's id and
    type, and the key agreement key's id and type; their parents are
    [<edvId>/zcaps/documents], the hmac key id and the key agreement key
    id. *)
Theorem delegateEdvCapabilities_fresh_keys
    W (edvId : string) (hmac keyAgreementKey : key_api) parentCapabilities
    invocationSigner (profileAgentId prefix : string) st zcaps st' :
  edvId <> EmptyString ->
  delegateEdvCapabilities W (Some edvId) (Some hmac) (Some keyAgreementKey)
    parentCapabilities invocationSigner profileAgentId (Some prefix) st
  = (Ok zcaps, st') ->
  exists documents hmacZcap kak,
    zcaps = [documents; hmacZcap; kak] /\
    (referenceId documents = prefix +:+ "-edv-documents" /\
     allowedAction documents = ActionList ["read"; "write"] /\
     controller documents = profileAgentId /\
     invocationTarget documents =
       Some (Target (Some (edvId +:+ "/documents"))
               (Some "urn:edv:documents") None) /\
     parentCapability documents =
       Some (CapUrl (edvId +:+ "/zcaps/documents"))) /\
    (referenceId hmacZcap = prefix +:+ "-edv-hmac" /\
     allowedAction hmacZcap = ActionOne "sign" /\
     controller hmacZcap = profileAgentId /\
     target_id <$> invocationTarget hmacZcap = Some (key_id hmac) /\
     target_type <$> invocationTarget hmacZcap = Some (key_type hmac) /\
     parentCapability hmacZcap = CapUrl <$> key_id hmac) /\
    (referenceId kak = prefix +:+ "-edv-kak" /\
     allowedAction kak = ActionList ["deriveSecret"; "sign"] /\
     controller kak = profileAgentId /\
     target_id <$> invocationTarget kak = Some (key_id keyAgreementKey) /\
     target_type <$> invocationTarget kak = Some (key_type keyAgreementKey) /\
     parentCapability kak = CapUrl <$> key_id keyAgreementKey).
Proof.
  intros He H.
  unfold delegateEdvCapabilities, delegateEdvDocumentsRequest,
    delegateEdvHmacRequest, delegateEdvKakRequest in H.
  rewrite (truthy_Some _ He) in H. inv_ok H.
  subst. do 3 eexists. split; [reflexivity|].
  cbn. auto 20.
Qed.

Lemma delegateEdvCapabilities_fresh_keys_witness :
  Demo.edvId <> EmptyString /\
  exists zcaps st',
    delegateEdvCapabilities Demo.world (Some Demo.edvId) (Some Demo.hmac)
      (Some Demo.keyAgreementKey) None Demo.signer Demo.agentId
      (Some "user") Demo.attached = (Ok zcaps, st') /\
    map referenceId zcaps =
      ["user-edv-documents"; "user-edv-hmac"; "user-edv-kak"].
Proof.
  split; [distinct|].
  destruct (delegateEdvCapabilities Demo.world (Some Demo.edvId)
              (Some Demo.hmac) (Some Demo.keyAgreementKey) None Demo.signer
              Demo.agentId (Some "user") Demo.attached)
    as [[zcaps|e] st'] eqn:Hrun.
  2: { vm_compute in Hrun. discriminate. }
  exists zcaps, st'. split; [reflexivity|].
  destruct (delegateEdvCapabilities_fresh_keys _ Demo.edvId _ _ _ _ _ _ _ _ _
              ltac:(distinct) Hrun)
    as (d & h & k & -> & (Hd & _) & (Hh & _) & (Hk & _)).
  cbn [map]. rewrite Hd, Hh, Hk. reflexivity.
Defined.

(** C2 (the code departs from the claim).  When a resource has neither a
    fresh key nor an entry in [parentCapabilities], the call does stop
    before anything is delegated, but not with an error that names the
    missing field: the validation is a TODO in the source, and what is
    thrown is the engine's TypeError for reading [invocationTarget] of
    [undefined].  Shown for a missing hmac, a missing EDV and a missing key
    agreement key. *)
Theorem delegateEdvCapabilities_missing_override
    W invocationSigner (profileAgentId : string) referenceIdPrefix st :
  let none := Some (ParentCapabilities None None None None) in
  delegateEdvCapabilities W (Some Demo.edvId) None
    (Some Demo.keyAgreementKey) none invocationSigner profileAgentId
    referenceIdPrefix st
  = (Err (NullDeref "hmac" "invocationTarget"), st) /\
  delegateEdvCapabilities W None (Some Demo.hmac)
    (Some Demo.keyAgreementKey) none invocationSigner profileAgentId
    referenceIdPrefix st
  = (Err (NullDeref "edv" "invocationTarget"), st) /\
  delegateEdvCapabilities W (Some Demo.edvId) (Some Demo.hmac) None none
    invocationSigner profileAgentId referenceIdPrefix st
  = (Err (NullDeref "kak" "invocationTarget"), st).
Proof. cbv zeta. repeat split. Qed.

(** ** Validation of identifiers *)

(** C3. Every public method that requires an identifier, called with the
    identifier [undefined] or [''], throws the validation error naming the
    field ([profileId]; [id] for [getProfile]) and leaves the manager as it
    was: nothing is cached and no collaborator is called. *)
Theorem identifier_validated_first W (x : option string) st :
  x = None \/ x = Some EmptyString ->
  getAgent W x st = (Err (AssertionError "profileId"), st) /\
  (forall capabilityInvoker,
     getProfileSigner W x capabilityInvoker st
     = (Err (AssertionError "profileId"), st)) /\
  (forall capabilityInvoker,
     getProfile W x capabilityInvoker st = (Err (AssertionError "id"), st)) /\
  getProfileKeystoreAgent W x st = (Err (AssertionError "profileId"), st) /\
  (forall referenceId,
     createProfileEdv W x referenceId st
     = (Err (AssertionError "profileId"), st)) /\
  (forall capabilityInvoker,
     getAccessManager W x capabilityInvoker st
     = (Err (AssertionError "profileId"), st)) /\
  (forall referenceIdPrefix type,
     getCollection W x referenceIdPrefix type st
     = (Err (AssertionError "profileId"), st)) /\
  (forall referenceIdPrefix capabilityInvoker,
     getProfileEdvAccess W x referenceIdPrefix capabilityInvoker st
     = (Err (AssertionError "profileId"), st)) /\
  (forall request,
     delegateCapability W x request st
     = (Err (AssertionError "profileId"), st)) /\
  (forall profileContent profileAgentContent hmac keyAgreementKey edvId
          capability revocationCapability indexes capabilityInvoker,
     initializeAccessManagement W x profileContent profileAgentContent hmac
       keyAgreementKey edvId capability revocationCapability indexes
       capabilityInvoker st
     = (Err (AssertionError "profileId"), st)).
Proof.
  intros Hx.
  repeat split; intros;
    apply bind_fail; apply assert_nonEmptyString_reject; exact Hx.
Qed.

Lemma identifier_validated_first_witness :
  getAgent Demo.world (Some EmptyString) Demo.attached
  = (Err (AssertionError "profileId"), Demo.attached) /\
  getProfile Demo.world None "local" Demo.attached
  = (Err (AssertionError "id"), Demo.attached).
Proof.
  split.
  - exact (proj1 (identifier_validated_first Demo.world (Some EmptyString)
                    Demo.attached (or_intror eq_refl))).
  - destruct (identifier_validated_first Demo.world None Demo.attached
                (or_introl eq_refl)) as (_ & _ & H & _).
    exact (H "local").
Defined.

(** ** Bootstrap of access management *)

(** C4 (the code departs from the claim).  Called without an hmac and
    without a key agreement key, [initializeAccessManagement] does not
    generate the keys: it reads [this.profileManager], a property the class
    never defines, and calling [createEdvRecipientKeys] on it throws the
    engine's TypeError before any collaborator is reached. *)
Theorem initializeAccessManagement_without_keys
    W profileContent profileAgentContent indexes capabilityInvoker st :
  initializeAccessManagement W (Some Demo.profileId) profileContent
    profileAgentContent None None (Some Demo.edvId) None None indexes
    capabilityInvoker st
  = (Err (NullDeref "profileManager" "createEdvRecipientKeys"), st).
Proof. reflexivity. Qed.

Lemma obj_set_nonempty {V} k (v : V) o : obj_set k v o <> [].
Proof.
  destruct o as [|[k' v'] o]; cbn; [|destruct (String.eqb k k')]; easy.
Qed.

Lemma obj_spread_nonempty {V} (b a : object V) :
  a <> [] -> obj_spread a b <> [].
Proof.
  unfold obj_spread. revert a.
  induction b as [|[k v] b IH]; intros a Ha; cbn; [assumption|].
  apply IH, obj_set_nonempty.
Qed.

(** The loop that extends the type array computes what the specification
    describes. *)
Lemma push_types_first_seen types : forall type,
  push_types type types = (type ++ first_seen type types)%list.
Proof.
  induction types as [|t types IH]; intros type; cbn.
  - now rewrite app_nil_r.
  - unfold push_types in *. cbn.
    destruct (existsb (String.eqb t) type).
    + apply IH.
    + rewrite IH, <- app_assoc. reflexivity.
Qed.

(** C9. A successful [initializeAccessManagement] given an EDV id and the
    recipient keys returns a profile whose [accessManagement.edvId] is the
    given EDV id and whose [type] is ['User'], ['Profile'] and then the
    caller's types that were not already present, each once and in
    first-seen order, and a profile agent whose [zcaps] object is not
    empty. *)
Theorem initializeAccessManagement_shape
    W profileId profileContent profileAgentContent hmac keyAgreementKey
    (edvId : string) capability revocationCapability indexes
    capabilityInvoker st profile profileAgent st' :
  edvId <> EmptyString ->
  initializeAccessManagement W profileId profileContent profileAgentContent
    (Some hmac) (Some keyAgreementKey) (Some edvId) capability
    revocationCapability indexes capabilityInvoker st
  = (Ok (profile, profileAgent), st') ->
  am_edvId <$> content_accessManagement profile = Some (Some edvId) /\
  content_type profile =
    TypeList ("User" :: "Profile" ::
              first_seen ["User"; "Profile"]
                (as_array (in_type profileContent))) /\
  content_zcaps profileAgent <> [].
Proof.
  intros He H. unfold initializeAccessManagement in H.
  rewrite (truthy_Some _ He) in H. cbn [is_some xorb] in H.
  apply bind_Ok in H as (pid & s1 & _ & H).
  apply bind_Ok in H as (? & s2 & H2 & H).
  unfold ret in H2. inversion H2; subst; clear H2.
  destruct capability as [cap|]; cbn [is_some Bool.eqb] in H.
  { apply bind_Ok in H as (? & ? & H2 & _). discriminate H2. }
  apply bind_Ok in H as (? & s3 & H2 & H).
  unfold ret in H2. inversion H2; subst; clear H2.
  apply bind_Ok in H as (? & s4 & H2 & H).
  unfold this in H2. inversion H2; subst; clear H2.
  cbn [deref] in H.
  apply bind_Ok in H as (keys & s5 & H2 & H).
  apply bind_Ok in H2 as (? & ? & H3 & H2). unfold ret in H2, H3.
  inversion H3; subst; clear H3. inversion H2; subst; clear H2.
  cbn [fst snd] in H.
  inv_ok H.
  split; [reflexivity|]. split.
  - cbn [content_type]. rewrite push_types_first_seen. reflexivity.
  - cbn [content_zcaps]. apply obj_spread_nonempty.
    lazymatch goal with
    | |- context [String.eqb ?a ?b] => destruct (String.eqb a b)
    end; discriminate.
Qed.

Lemma initializeAccessManagement_shape_witness :
  Demo.edvId <> EmptyString /\
  exists profile profileAgent st',
    initializeAccessManagement Demo.world (Some Demo.profileId)
      (ContentInput (TypeList ["Person"; "User"; "Person"]) None
         [("foo", "true")])
      (ContentInput TypeAbsent None []) (Some Demo.hmac)
      (Some Demo.keyAgreementKey) (Some Demo.edvId) None None [] "local"
      Demo.attached
    = (Ok (profile, profileAgent), st') /\
    am_edvId <$> content_accessManagement profile = Some (Some Demo.edvId) /\
    content_type profile = TypeList ["User"; "Profile"; "Person"] /\
    content_zcaps profileAgent <> [].
Proof.
  split; [distinct|].
  destruct (initializeAccessManagement Demo.world (Some Demo.profileId)
              (ContentInput (TypeList ["Person"; "User"; "Person"]) None
                 [("foo", "true")])
              (ContentInput TypeAbsent None []) (Some Demo.hmac)
              (Some Demo.keyAgreementKey) (Some Demo.edvId) None None []
              "local" Demo.attached)
    as [[[profile profileAgent]|e] st'] eqn:Hrun.
  2: { vm_compute in Hrun. discriminate. }
  exists profile, profileAgent, st'. split; [reflexivity|].
  exact (initializeAccessManagement_shape _ _ _ _ _ _ Demo.edvId _ _ _ _ _ _
           _ _ ltac:(distinct) Hrun).
Defined.

(** ** Objects keyed by reference id *)

Lemma obj_get_set_eq {V} k (v : V) o : obj_get k (obj_set k v o) = Some v.
Proof.
  induction o as [|[k' v'] o IH]; cbn.
  - now rewrite String.eqb_refl.
  - destruct (String.eqb k k') eqn:E; cbn.
    + now rewrite String.eqb_refl.
    + now rewrite E.
Qed.

Lemma obj_get_set_ne {V} k k' (v : V) o :
  k <> k' -> obj_get k (obj_set k' v o) = obj_get k o.
Proof.
  intros Hne. induction o as [|[k0 v0] o IH]; cbn.
  - destruct (String.eqb_spec k k'); [contradiction|reflexivity].
  - destruct (String.eqb_spec k' k0); cbn.
    + subst. destruct (String.eqb_spec k k0); [contradiction|reflexivity].
    + destruct (String.eqb k k0); auto.
Qed.

Lemma by_referenceId_other zs : forall o k,
  (forall z, In z zs -> referenceId z <> k) ->
  obj_get k (by_referenceId zs o) = obj_get k o.
Proof.
  induction zs as [|z zs IH]; intros o k H; cbn; [reflexivity|].
  unfold by_referenceId in *. cbn. rewrite IH.
  - apply obj_get_set_ne. intros ->. apply (H z); [now left|reflexivity].
  - intros z' Hz'. apply H. now right.
Qed.

Lemma by_referenceId_member zs : forall o z,
  List.NoDup (map referenceId zs) -> In z zs ->
  obj_get (referenceId z) (by_referenceId zs o) = Some z.
Proof.
  induction zs as [|z0 zs IH]; intros o z Hnd Hin; [contradiction|].
  inversion Hnd as [|? ? Hnot Hnd']; subst.
  unfold by_referenceId in *. cbn. destruct Hin as [->|Hin].
  - fold (by_referenceId zs (obj_set (referenceId z) z o)).
    rewrite by_referenceId_other.
    + apply obj_get_set_eq.
    + intros z' Hz' Heq. apply Hnot. rewrite <- Heq. now apply in_map.
  - now apply IH.
Qed.

Lemma by_referenceId_origin zs : forall o k z,
  obj_get k (by_referenceId zs o) = Some z ->
  (In z zs /\ referenceId z = k) \/ obj_get k o = Some z.
Proof.
  induction zs as [|z0 zs IH]; intros o k z H; [now right|].
  unfold by_referenceId in *. cbn in H. apply IH in H as [[Hin Hk]|H].
  - left. split; [now right|assumption].
  - destruct (String.eqb_spec k (referenceId z0)) as [->|Hne].
    + rewrite obj_get_set_eq in H. inversion H; subst.
      left. split; [now left|reflexivity].
    + rewrite obj_get_set_ne in H by assumption. now right.
Qed.

(** ** The profile agent before access management is initialized *)

Lemma _getAgentRecord_trace W profileId st r st' :
  _getAgentRecord W profileId st = (r, st') ->
  trace st' = trace st \/
  trace st' =
    (trace st ++ [EvGetAgentByProfile profileId (accountId st)])%list.
Proof.
  unfold _getAgentRecord, _getAgentRecord_start, bind, modify, this, now,
    call, ret, finally, awaited. cbn.
  destruct (cache_get _ _ _).
  - intros H. inversion H. now left.
  - destruct (record_requests (_requests st) !! _).
    + intros H. inversion H. now left.
    + destruct (getAgentByProfile W _ _ _); cbn; intros H; inversion H;
        now right.
Qed.

(** C10. For a profile agent whose record has no [userDocument] capability,
    [getAgent] returns content made from the record: the agent's id and a
    [zcaps] object that holds every capability of the record under its
    reference id, and nothing else (reference ids being unique within an
    agent, as the data model has it).  The only collaborator that may have
    been called is the profile service, for the record itself; the EDV is
    not contacted. *)
Theorem getAgent_before_access_management
    W (profileId : string) st record st1 :
  profileId <> EmptyString ->
  _getAgentRecord W profileId st = (Ok record, st1) ->
  obj_get "userDocument" (pa_zcaps (profileAgent record)) = None ->
  List.NoDup
    (map referenceId (obj_values (pa_zcaps (profileAgent record)))) ->
  exists content,
    getAgent W (Some profileId) st = (Ok content, st1) /\
    content_id content = pa_id (profileAgent record) /\
    (forall zcap,
       In zcap (obj_values (pa_zcaps (profileAgent record))) ->
       obj_get (referenceId zcap) (content_zcaps content) = Some zcap) /\
    (forall k zcap,
       obj_get k (content_zcaps content) = Some zcap ->
       In zcap (obj_values (pa_zcaps (profileAgent record))) /\
       k = referenceId zcap) /\
    (trace st1 = trace st \/
     trace st1 =
       (trace st ++ [EvGetAgentByProfile profileId (accountId st)])%list) /\
    Forall (fun ev => is_edv_event ev = false)
      (drop (length (trace st)) (trace st1)).
Proof.
  intros Hid Hrec Hnone Hnd.
  eexists. split.
  { unfold getAgent.
    rewrite (bind_step _ _ _ _ _ (assert_nonEmptyString_pass _ _ _ Hid)).
    rewrite (bind_step _ _ _ _ _ Hrec). rewrite Hnone. reflexivity. }
  cbn [content_id content_zcaps]. split; [reflexivity|]. split.
  { intros z Hz. now apply by_referenceId_member. }
  split.
  { intros k z Hz.
    apply by_referenceId_origin in Hz as [[? ?]|Hz]; [auto|discriminate]. }
  pose proof (_getAgentRecord_trace _ _ _ _ _ Hrec) as Ht.
  split; [exact Ht|].
  destruct Ht as [-> | ->].
  - rewrite drop_all. constructor.
  - rewrite drop_app_length. repeat constructor.
Qed.

Lemma getAgent_before_access_management_witness :
  exists content st1,
    getAgent Demo.world (Some Demo.profileId) Demo.attached
    = (Ok content, st1) /\
    content_id content = Demo.agentId /\
    obj_get (Demo.profileId +:+ "-key-capabilityInvocation")
      (content_zcaps content)
    = Some (Demo.invocationKey Demo.profileId).
Proof.
  destruct (_getAgentRecord Demo.world Demo.profileId Demo.attached)
    as [[record|e] st1] eqn:Hrec.
  2: { vm_compute in Hrec. discriminate. }
  assert (Hr : record = Demo.record Demo.profileId (Some Demo.account)).
  { vm_compute in Hrec. inversion Hrec. reflexivity. }
  destruct (getAgent_before_access_management Demo.world Demo.profileId
              Demo.attached record st1 ltac:(distinct) Hrec)
    as (content & Hrun & Hid & Hin & _).
  - rewrite Hr. reflexivity.
  - rewrite Hr. cbn. repeat constructor. intros [].
  - exists content, st1. split; [exact Hrun|]. split.
    + rewrite Hid, Hr. reflexivity.
    + apply (Hin (Demo.invocationKey Demo.profileId)).
      rewrite Hr. now left.
Defined.

(** ** Session changes *)

Lemma cache_get_new {V} t k age : cache_get t k (@new_Cache V age) = None.
Proof. reflexivity. Qed.

(** The purge of the collaborators' caches is due when the manager is bound
    to an account (a non-empty id) other than the new one. *)
Lemma purge_due (old : string) (previous new : option string) :
  previous = Some old -> old <> EmptyString -> Some old <> new ->
  truthy previous && negb (bool_decide (previous = new)) = true /\
  tpl previous = old.
Proof.
  intros -> Hne Hdiff. rewrite (truthy_Some _ Hne).
  rewrite bool_decide_eq_false_2 by exact Hdiff. auto.
Qed.

(** Every way a session change can end: a purge call rejected and nothing
    was reset, or the internal cache was reset and the manager rebound.
    The requests in flight are never touched. *)
Lemma _sessionChanged_cases W authentication newData st r st' :
  _sessionChanged W authentication newData st = (r, st') ->
  let newAccountId := sd_account newData ≫= account_id in
  let due :=
    truthy (accountId st)
    && negb (bool_decide (accountId st = newAccountId)) in
  let purge := EvClearCapabilityAgentCache (tpl (accountId st)) in
  _requests st' = _requests st /\
  ((due = true /\
    exists msg,
      r = Err (Rejected msg) /\
      ((clearCapabilityAgentCache W (trace st) (tpl (accountId st))
        = Failed msg /\ st' = logged purge st) \/
       (clearCapabilityAgentCache W (trace st) (tpl (accountId st))
        = Resolved tt /\
        clearEdvClientCache W (trace st ++ [purge]) = Failed msg /\
        st' = logged EvEdvClientCacheClear (logged purge st)))) \/
   (_cache st' = cache_clear /\ accountId st' = newAccountId /\
    (due = true ->
     clearCapabilityAgentCache W (trace st) (tpl (accountId st))
     = Resolved tt /\
     clearEdvClientCache W (trace st ++ [purge]) = Resolved tt) /\
    exists rest,
      trace st' =
        (trace st ++
         (if due then [purge; EvEdvClientCacheClear] else []) ++ rest)%list)).
Proof.
  intros H newAccountId due purge.
  unfold _sessionChanged, bind, this, modify, _resetCache, ret, await in H.
  fold newAccountId in H. fold due in H.
  destruct due; cbn in H.
  - destruct (clearCapabilityAgentCache W (trace st) (tpl (accountId st)))
      as [[]|msg] eqn:E1; cbn in H.
    2:{ inversion H; subst. split; [reflexivity|]. left.
        split; [reflexivity|]. exists msg. auto. }
    fold purge in H.
    destruct (clearEdvClientCache W (trace st ++ [purge])) as [[]|msg] eqn:E2;
      cbn in H.
    2:{ inversion H; subst. split; [reflexivity|]. left.
        split; [reflexivity|]. exists msg. split; [reflexivity|].
        right. auto. }
    destruct (negb (authentication || is_some (sd_account newData)));
      cbn in H.
    all: try
      match type of H with
      | context [capabilityAgentFromCache ?w ?h ?x] =>
          destruct (capabilityAgentFromCache w h x) as [[?|]|?]; cbn in H
      end.
    all: try
      match type of H with
      | context [capabilityAgentFromSecret ?w ?h ?x] =>
          destruct (capabilityAgentFromSecret w h x); cbn in H
      end.
    all: inversion H; subst; cbn; split; [reflexivity|]; right;
      repeat split.
    all: first [ exists []; reflexivity
               | rewrite <- ?app_assoc; eexists; reflexivity ].
  - destruct (negb (authentication || is_some (sd_account newData)));
      cbn in H.
    all: try
      match type of H with
      | context [capabilityAgentFromCache ?w ?h ?x] =>
          destruct (capabilityAgentFromCache w h x) as [[?|]|?]; cbn in H
      end.
    all: try
      match type of H with
      | context [capabilityAgentFromSecret ?w ?h ?x] =>
          destruct (capabilityAgentFromSecret w h x); cbn in H
      end.
    all: inversion H; subst; cbn; split; [reflexivity|]; right;
      repeat split; try discriminate.
    all: first [ exists []; rewrite ?app_nil_r; reflexivity
               | rewrite <- ?app_assoc; eexists; reflexivity ].
Qed.

(** What a suspended [_getAgentRecord] has registered. *)
Lemma _getAgentRecord_start_Started W profileId st promise st1 :
  _getAgentRecord_start W profileId st = (Ok (Started promise), st1) ->
  let recordKey := "agent-records-" +:+ profileId in
  promise =
    match getAgentByProfile W (trace st) profileId (accountId st) with
    | Resolved record => Ok record
    | Failed msg => Err (Rejected msg)
    end /\
  record_requests (_requests st) !! recordKey = None /\
  record_requests (_requests st1) !! recordKey = Some promise /\
  trace st1 =
    (trace st ++ [EvGetAgentByProfile profileId (accountId st)])%list.
Proof.
  unfold _getAgentRecord_start, bind, modify, this, now, call, ret. cbn.
  destruct (cache_get _ _ _); [discriminate|].
  destruct (record_requests (_requests st) !! _) eqn:E; [discriminate|].
  intros H. inversion H; subst. cbn.
  rewrite lookup_insert_eq. auto.
Qed.

(** A lookup that finds the cache empty and a request in flight returns
    that request's promise and calls nobody. *)
Lemma _getAgentRecord_joins W profileId st promise :
  _cache st = cache_clear ->
  record_requests (_requests st) !! ("agent-records-" +:+ profileId)
  = Some promise ->
  _getAgentRecord W profileId st
  = (promise, set_agent_records (new_Cache (Some 250)) st).
Proof.
  intros Hc Hr.
  unfold _getAgentRecord, _getAgentRecord_start, bind, modify, this, now,
    ret, awaited, agent_records_of.
  cbn. rewrite Hc. cbn. rewrite Hr. reflexivity.
Qed.

(** C7 (the code departs from the claim).  A session change purges the
    CapabilityAgent cache entry of the old handle and clears the EDV client
    cache when the manager was bound to another account (a non-empty id),
    and it empties [this._cache]; that much is as the claim says.  But
    - the reset is not unconditional: the two purge calls are awaited before
      anything is updated, so when one of them rejects the session change
      rejects and the manager stays bound to the old account with its cache
      as it was;
    - [this._requests] is never reset: a request for an agent record that
      is in flight when the session changes stays registered under a key
      that does not name the account, and a lookup made after the manager
      has been rebound returns its promise, that is, the record requested
      for the previous account, without asking the profile service. *)
Theorem session_change_keeps_requests_in_flight W authentication newData :
  let newAccountId := sd_account newData ≫= account_id in
  (forall st r st',
     _sessionChanged W authentication newData st = (r, st') ->
     (forall old,
        accountId st = Some old -> old <> EmptyString ->
        Some old <> newAccountId ->
        clearCapabilityAgentCache W (trace st) old = Resolved tt /\
        clearEdvClientCache W
          (trace st ++ [EvClearCapabilityAgentCache old]) = Resolved tt) ->
     _cache st' = cache_clear /\
     accountId st' = newAccountId /\
     (forall t k,
        cache_get t k (agent_records_of st') = None /\
        cache_get t k (agent_content_of st') = None /\
        cache_get t k (invocation_signers_of st') = None /\
        forall namespace,
          cache_get t k (zcap_cache_of namespace st') = None) /\
     (forall old,
        accountId st = Some old -> old <> EmptyString ->
        Some old <> newAccountId ->
        exists rest,
          trace st' =
            (trace st ++ EvClearCapabilityAgentCache old ::
               EvEdvClientCacheClear :: rest)%list)) /\
  (forall st old msg,
     accountId st = Some old -> old <> EmptyString ->
     Some old <> newAccountId ->
     (clearCapabilityAgentCache W (trace st) old = Failed msg ->
      _sessionChanged W authentication newData st
      = (Err (Rejected msg), logged (EvClearCapabilityAgentCache old) st)) /\
     (clearCapabilityAgentCache W (trace st) old = Resolved tt ->
      clearEdvClientCache W (trace st ++ [EvClearCapabilityAgentCache old])
      = Failed msg ->
      _sessionChanged W authentication newData st
      = (Err (Rejected msg),
         logged EvEdvClientCacheClear
           (logged (EvClearCapabilityAgentCache old) st)))) /\
  (forall st r st',
     _sessionChanged W authentication newData st = (r, st') ->
     _requests st' = _requests st) /\
  (forall profileId st promise st1 st2,
     _getAgentRecord_start W profileId st = (Ok (Started promise), st1) ->
     _sessionChanged W authentication newData st1 = (Ok tt, st2) ->
     promise =
       match getAgentByProfile W (trace st) profileId (accountId st) with
       | Resolved record => Ok record
       | Failed msg => Err (Rejected msg)
       end /\
     accountId st2 = newAccountId /\
     _cache st2 = cache_clear /\
     exists st3,
       _getAgentRecord W profileId st2 = (promise, st3) /\
       trace st3 = trace st2).
Proof.
  intros newAccountId. split; [|split; [|split]].
  - intros st r st' H Hpurge.
    destruct (_sessionChanged_cases _ _ _ _ _ _ H)
      as (_ & [(Hdue & msg & -> & Hfail) | (Hc & Ha & _ & rest & Ht)]).
    { (* a purge call rejected: excluded by the hypothesis *)
      exfalso. fold newAccountId in Hdue.
      destruct (accountId st) as [old|] eqn:Eold; [|discriminate].
      assert (Hne : old <> EmptyString).
      { intros ->. discriminate. }
      assert (Hdiff : Some old <> newAccountId).
      { intros E. rewrite <- E in Hdue.
        rewrite bool_decide_eq_true_2 in Hdue by reflexivity.
        rewrite andb_false_r in Hdue. discriminate. }
      destruct (Hpurge old eq_refl Hne Hdiff) as [H1 H2]. cbn in Hfail.
      destruct Hfail as [[Hf _] | (_ & Hf & _)]; congruence. }
    split; [exact Hc|]. split; [exact Ha|]. split.
    + intros t k.
      unfold agent_records_of, agent_content_of, invocation_signers_of,
        zcap_cache_of.
      rewrite Hc. cbn. repeat split.
    + intros old Hold Hne Hdiff. fold newAccountId in Ht.
      destruct (purge_due old _ newAccountId Hold Hne Hdiff) as [Hdue Htpl].
      rewrite Hdue, Htpl in Ht. rewrite Ht. cbn. eauto.
  - intros st old msg Hold Hne Hdiff.
    destruct (purge_due old _ newAccountId Hold Hne Hdiff) as [Hdue Htpl].
    unfold _sessionChanged, bind, this, await, logged.
    fold newAccountId. rewrite Hdue, Htpl. cbn. split.
    + intros ->. reflexivity.
    + intros E1 E2. rewrite E1. cbn. rewrite E2. reflexivity.
  - intros st r st' H.
    exact (proj1 (_sessionChanged_cases _ _ _ _ _ _ H)).
  - intros profileId st promise st1 st2 Hstart H.
    destruct (_getAgentRecord_start_Started _ _ _ _ _ Hstart)
      as (Hp & _ & Hreg & _).
    destruct (_sessionChanged_cases _ _ _ _ _ _ H)
      as (Hr & [(_ & msg & Hmsg & _) | (Hc & Ha & _)]); [discriminate|].
    split; [exact Hp|]. split; [exact Ha|]. split; [exact Hc|].
    eexists. split.
    + apply _getAgentRecord_joins; [exact Hc|]. rewrite Hr. exact Hreg.
    + reflexivity.
Qed.

Lemma session_change_keeps_requests_in_flight_witness :
  let B := SessionData (Some (AccountData (Some "urn:uuid:0b1e"))) in
  let suspended :=
    snd (_getAgentRecord_start Demo.world Demo.profileId Demo.attached) in
  let rebound := snd (_sessionChanged Demo.world true B suspended) in
  accountId Demo.attached = Some Demo.account /\
  accountId rebound = Some "urn:uuid:0b1e" /\
  _cache rebound = cache_clear /\
  exists st3,
    _getAgentRecord Demo.world Demo.profileId rebound
    = (Ok (Demo.record Demo.profileId (Some Demo.account)), st3) /\
    trace st3 = trace rebound /\
    last (trace rebound)
    = Some (EvCapabilityAgentFromSecret (Some "urn:uuid:0b1e")).
Proof.
  intros B suspended rebound.
  destruct (session_change_keeps_requests_in_flight Demo.world true B)
    as (_ & _ & _ & Hflight).
  destruct (Hflight Demo.profileId Demo.attached
              (Ok (Demo.record Demo.profileId (Some Demo.account)))
              suspended rebound)
    as (_ & Ha & Hc & st3 & Hrun & Ht).
  - vm_compute. reflexivity.
  - vm_compute. reflexivity.
  - split; [reflexivity|]. split; [exact Ha|]. split; [exact Hc|].
    exists st3. split; [exact Hrun|]. split; [exact Ht|].
    vm_compute. reflexivity.
Defined.

(** ** Resolution of a capability *)

Lemma zcap_cache_of_set k c st : zcap_cache_of k (set_zcap_cache k c st) = c.
Proof.
  unfold zcap_cache_of, set_zcap_cache. cbn. now rewrite lookup_insert_eq.
Qed.

Lemma cache_get_set {V} t t' k (v : V) c :
  maxAge c = None -> cache_get t k (cache_set t' k v c) = Some v.
Proof.
  intros Hage. unfold cache_get, cache_set, expired. cbn.
  rewrite lookup_insert_eq, Hage. reflexivity.
Qed.

(** Without a max age an entry is found at any time. *)
Lemma cache_get_ageless {V} t t' k (c : Cache V) :
  maxAge c = None -> cache_get t k c = cache_get t' k c.
Proof.
  intros Hage. unfold cache_get, expired. rewrite Hage. reflexivity.
Qed.

Lemma zcap_cache_of_age k st :
  zcap_caches_keep st -> maxAge (zcap_cache_of k st) = None.
Proof.
  intros Hkeep. unfold zcap_cache_of.
  destruct (zcap_caches (_cache st) !! k) eqn:E; cbn;
    [exact (Hkeep _ _ E) | reflexivity].
Qed.

(** Creating a capability cache that exists changes nothing. *)
Lemma ensure_zcap_cache_present k st :
  zcap_caches (_cache st) !! k <> None -> ensure_zcap_cache k st = st.
Proof.
  intros H. unfold ensure_zcap_cache, set_zcap_cache, zcap_cache_of.
  destruct (zcap_caches (_cache st) !! k) as [c|] eqn:E; [|congruence].
  cbn. rewrite insert_id by exact E.
  destruct st as [? ? ? ? ? ? [? ? ? ?] ? ?]; reflexivity.
Qed.

Lemma ensure_zcap_cache_twice k st :
  ensure_zcap_cache k (ensure_zcap_cache k st) = ensure_zcap_cache k st.
Proof.
  apply ensure_zcap_cache_present. cbn. rewrite lookup_insert_eq.
  discriminate.
Qed.

(** The [finally] of [getCapability] when no other request is registered
    for the key. *)
Lemma drop_capability_request key st :
  capability_requests (_requests st) !! key = None ->
  set_requests
    (set_capability_requests
       (delete key (capability_requests (_requests st))) (_requests st)) st
  = st.
Proof.
  intros H. rewrite delete_id by exact H.
  destruct st as [? ? ? ? ? ? ? [? ? ?] ?]; reflexivity.
Qed.

(** Resolving a signer leaves the requests in flight and the capability
    caches alone. *)
Lemma _getInvocationSigner_frame W a i st r st1 :
  _getInvocationSigner W a i st = (r, st1) ->
  _requests st1 = _requests st /\
  zcap_caches (_cache st1) = zcap_caches (_cache st).
Proof.
  unfold _getInvocationSigner, assert_nonEmptyString, bind, modify, this, now,
    await, deref, throw, ret, invocation_signers_of.
  cbn.
  destruct (String.eqb i EmptyString); [intros [= <- <-]; auto|]. cbn.
  destruct (cache_get _ _ _); [intros [= <- <-]; auto|].
  destruct (String.eqb i "local").
  { destruct (capabilityAgent st); intros [= <- <-]; auto. }
  destruct (String.eqb i "agent"); [|intros [= <- <-]; auto].
  destruct (truthy a); [|intros [= <- <-]; auto].
  destruct (capabilityAgent st); [|intros [= <- <-]; auto]. cbn.
  destruct (delegateAgentCapabilities W _ _ _ _); intros [= <- <-]; auto.
Qed.

Lemma utils_delegateCapability_run W s r st :
  utils_delegateCapability W s r st =
  (match signDelegation W (trace st) s r with
   | Resolved (id, p) =>
       Ok (Zcap (Some id) (referenceId r) (allowedAction r) (controller r)
             (invocationTarget r) (parentCapability r) (Some p))
   | Failed msg => Err (Rejected msg)
   end, logged (EvDelegate s r) st).
Proof.
  unfold utils_delegateCapability, bind, await, ret, logged.
  destruct (signDelegation W (trace st) s r) as [[id p]|]; reflexivity.
Qed.

Section GetCapability.

Variables (W : world) (id profileAgentId capabilityInvoker : string).
Implicit Types (zcaps : zcap_map) (profileId : option string).

Let namespace := "profileAgent-" +:+ profileAgentId +:+ "-zcaps".
Let key := namespace +:+ "-" +:+ id +:+ "-" +:+ capabilityInvoker.

(** The request leaves the requests in flight alone. *)
Lemma getCapability_request_requests zcaps profileId st r st' :
  getCapability_request W id profileAgentId zcaps profileId capabilityInvoker
    st = (r, st') ->
  _requests st' = _requests st.
Proof.
  unfold getCapability_request. fold namespace key.
  unfold bind at 1 2, this, now.
  destruct (cache_get _ key _); [intros [= <- <-]; reflexivity|].
  unfold bind at 1.
  destruct (_getInvocationSigner W (Some profileAgentId) "agent" st)
    as [[agentSigner|e] st1] eqn:Hsigner.
  2:{ intros [= <- <-].
      exact (proj1 (_getInvocationSigner_frame _ _ _ _ _ _ Hsigner)). }
  pose proof (proj1 (_getInvocationSigner_frame _ _ _ _ _ _ Hsigner)) as H1.
  unfold bind at 1.
  destruct (String.eqb id PROFILE_INVOCATION_ZCAP_REFERENCE_ID).
  - unfold bind at 1. unfold assert_nonEmptyString.
    destruct profileId as [p|]; [destruct (String.eqb p EmptyString)|];
      cbn [throw ret]; try (intros [= <- <-]; exact H1).
    destruct (obj_get _ zcaps) as [originalZcap|];
      [|intros [= <- <-]; exact H1].
    unfold bind at 1.
    destruct (String.eqb capabilityInvoker "local").
    + unfold bind at 1.
      destruct (_getInvocationSigner W None "local" st1)
        as [[localSigner|e] st2] eqn:Hlocal;
        pose proof (proj1 (_getInvocationSigner_frame _ _ _ _ _ _ Hlocal))
          as H2.
      * rewrite utils_delegateCapability_run.
        destruct (signDelegation W _ _ _) as [[zid sig]|];
          intros [= <- <-]; cbn; congruence.
      * intros [= <- <-]. congruence.
    + destruct (String.eqb capabilityInvoker "agent");
        intros [= <- <-]; cbn; exact H1.
  - cbn [ret].
    destruct (obj_get _ zcaps) as [originalZcap|];
      [|intros [= <- <-]; exact H1].
    unfold bind at 1.
    destruct (String.eqb capabilityInvoker "local").
    + unfold bind at 1.
      destruct (_getInvocationSigner W None "local" st1)
        as [[localSigner|e] st2] eqn:Hlocal;
        pose proof (proj1 (_getInvocationSigner_frame _ _ _ _ _ _ Hlocal))
          as H2.
      * rewrite utils_delegateCapability_run.
        destruct (signDelegation W _ _ _) as [[zid sig]|];
          intros [= <- <-]; cbn; congruence.
      * intros [= <- <-]. congruence.
    + destruct (String.eqb capabilityInvoker "agent");
        intros [= <- <-]; cbn; exact H1.
Qed.

(** [getCapability] when it starts its own request. *)
Lemma getCapability_owner zcaps profileId st :
  capability_requests (_requests st) !! key = None ->
  getCapability W id profileAgentId zcaps profileId capabilityInvoker st =
  let run :=
    getCapability_request W id profileAgentId zcaps profileId
      capabilityInvoker (ensure_zcap_cache namespace st) in
  (match fst run with Ok zcap => Ok (Some zcap) | Err e => Err e end,
   snd run).
Proof.
  intros Hreq. unfold getCapability. fold namespace key.
  unfold bind at 1 2, modify at 1, this.
  change (_requests (ensure_zcap_cache namespace st)) with (_requests st).
  rewrite Hreq. rewrite finally_modify. unfold bind.
  destruct (getCapability_request W id profileAgentId zcaps profileId
              capabilityInvoker (ensure_zcap_cache namespace st))
    as [r st'] eqn:Hrun.
  pose proof (getCapability_request_requests _ _ _ _ _ Hrun) as Hr.
  cbn [fst snd]. cbv zeta.
  assert (Hdrop : capability_requests (_requests st') !! key = None).
  { rewrite Hr. exact Hreq. }
  destruct r as [zcap|e]; cbn [fst snd ret];
    now rewrite (drop_capability_request _ _ Hdrop).
Qed.

Lemma getCapability_request_hit zcaps profileId st cached :
  cache_get (clock W (trace st)) key (zcap_cache_of namespace st)
  = Some cached ->
  getCapability_request W id profileAgentId zcaps profileId capabilityInvoker
    st = (Ok cached, st).
Proof.
  intros Hhit. unfold getCapability_request. fold namespace key.
  unfold bind, this, now. rewrite Hhit. reflexivity.
Qed.

(** The steps of the request up to the lookup of the base capability, on a
    cache miss and with the agent's signer at hand. *)
Lemma getCapability_request_miss zcaps profileId st agentSigner st1 :
  cache_get (clock W (trace st)) key (zcap_cache_of namespace st) = None ->
  _getInvocationSigner W (Some profileAgentId) "agent" st
  = (Ok agentSigner, st1) ->
  (String.eqb id PROFILE_INVOCATION_ZCAP_REFERENCE_ID = true ->
   truthy profileId = true) ->
  getCapability_request W id profileAgentId zcaps profileId capabilityInvoker
    st =
  let id' :=
    if String.eqb id PROFILE_INVOCATION_ZCAP_REFERENCE_ID then
      tpl (_getProfileInvocationZcapKeyReferenceId (tpl profileId) zcaps)
    else id in
  match obj_get id' zcaps with
  | None => throw (Error (missing_zcap_message profileAgentId id'))
  | Some originalZcap =>
      bind
        (if String.eqb capabilityInvoker "local" then
           bind (_getInvocationSigner W None "local")
             (fun localSigner =>
                utils_delegateCapability W agentSigner
                  (Zcap (zcap_id originalZcap) (referenceId originalZcap)
                     (allowedAction originalZcap)
                     (tpl (signer_id W localSigner))
                     (invocationTarget originalZcap)
                     (Some (CapObj originalZcap)) (proof originalZcap)))
         else if String.eqb capabilityInvoker "agent" then ret originalZcap
         else throw (Error "Unsupported invoker for capability."))
        (fun zcap =>
           bind (now W)
             (fun t' =>
                bind
                  (modify
                     (fun st =>
                        set_zcap_cache namespace
                          (cache_set t' key zcap
                             (zcap_cache_of namespace st)) st))
                  (fun _ => ret zcap)))
  end st1.
Proof.
  intros Hmiss Hsigner Hprofile. unfold getCapability_request.
  fold namespace. fold key.
  erewrite bind_step by reflexivity.
  erewrite bind_step by reflexivity.
  rewrite Hmiss.
  erewrite bind_step by exact Hsigner.
  destruct (String.eqb id PROFILE_INVOCATION_ZCAP_REFERENCE_ID).
  - specialize (Hprofile eq_refl).
    destruct profileId as [p|]; [|discriminate].
    assert (Hp : p <> EmptyString) by (intros ->; discriminate).
    erewrite bind_step.
    2:{ erewrite bind_step
          by (apply assert_nonEmptyString_pass; exact Hp).
        reflexivity. }
    reflexivity.
  - erewrite bind_step by reflexivity. reflexivity.
Qed.

(** The lookup of the base capability as the request performs it. *)
Lemma base_capability_lookup zcaps profileId base :
  base_capability id profileId zcaps = Some base ->
  (String.eqb id PROFILE_INVOCATION_ZCAP_REFERENCE_ID = true ->
   truthy profileId = true) /\
  obj_get
    (if String.eqb id PROFILE_INVOCATION_ZCAP_REFERENCE_ID
     then tpl (_getProfileInvocationZcapKeyReferenceId (tpl profileId) zcaps)
     else id) zcaps = Some base.
Proof.
  unfold base_capability.
  destruct (String.eqb id PROFILE_INVOCATION_ZCAP_REFERENCE_ID).
  - destruct (truthy profileId); [auto | discriminate].
  - intros H. split; [discriminate | exact H].
Qed.

(** A request that returns a capability leaves it in the capability cache
    of the profile agent, under the key. *)
Lemma getCapability_request_Ok zcaps profileId st zcap st' :
  zcap_caches (_cache st) !! namespace <> None ->
  maxAge (zcap_cache_of namespace st) = None ->
  getCapability_request W id profileAgentId zcaps profileId capabilityInvoker
    st = (Ok zcap, st') ->
  zcap_caches (_cache st') !! namespace <> None /\
  forall t, cache_get t key (zcap_cache_of namespace st') = Some zcap.
Proof.
  intros Hns Hage H. unfold getCapability_request in H.
  fold namespace key in H.
  unfold bind at 1 2, this, now in H.
  destruct (cache_get _ key _) as [hit|] eqn:Ehit.
  { inv_ok H. split; [exact Hns|]. intros t. rewrite <- Ehit.
    now apply cache_get_ageless. }
  apply bind_Ok in H as (agentSigner & s1 & Hsigner & H).
  destruct (_getInvocationSigner_frame _ _ _ _ _ _ Hsigner) as [_ Hz1].
  apply bind_Ok in H as (id' & s2 & Hid & H).
  assert (s2 = s1) as ->.
  { destruct (String.eqb id PROFILE_INVOCATION_ZCAP_REFERENCE_ID);
      inv_ok Hid; reflexivity. }
  clear Hid.
  destruct (obj_get id' zcaps) as [originalZcap|]; [|discriminate H].
  apply bind_Ok in H as (z & s3 & Hz & H).
  assert (Hz3 : zcap_caches (_cache s3) = zcap_caches (_cache st)).
  { destruct (String.eqb capabilityInvoker "local").
    - apply bind_Ok in Hz as (localSigner & s4 & Hlocal & Hz).
      destruct (_getInvocationSigner_frame _ _ _ _ _ _ Hlocal) as [_ Hz4].
      rewrite utils_delegateCapability_run in Hz.
      inversion Hz; subst. cbn. congruence.
    - destruct (String.eqb capabilityInvoker "agent"); inv_ok Hz.
      exact Hz1. }
  unfold bind, now, modify, ret in H. inversion H; subst.
  split.
  - cbn. rewrite lookup_insert_eq. discriminate.
  - intros t. rewrite zcap_cache_of_set. apply cache_get_set.
    unfold zcap_cache_of. rewrite Hz3. exact Hage.
Qed.

(** C5 (amended).  What [getCapability] does depends on what it finds for
    its key, which is made of the profile agent id, the capability id and
    the invoker.
    - A request in flight for the key: its promise is returned.
    - Otherwise, an entry in the agent's capability cache: the cached
      capability is returned.
    - Otherwise the capability is resolved.  If the agent's signer cannot
      be resolved, its error is thrown.  With the agent's signer resolved
      and the base capability present in the agent's capability map: with
      invoker ['agent'] the base capability is returned unchanged; with
      invoker ['local'] (the local signer resolved and the delegation
      signed) the result is the request the agent's signer has signed, a
      new capability with an id and a proof of its own, delegated one hop
      from the base: its controller is the local signer's id, its parent
      is the base capability, and reference id, actions and target are
      those of the base; in both modes the result is stored in the agent's
      capability cache under the key; with any other invoker the call
      throws the unsupported-invoker error and stores nothing.
    In the first two cases neither the capability map nor the invoker is
    looked at and no collaborator is called.  Whatever a call has
    returned, the next call for the same agent id, capability id and
    invoker returns the same capability and changes nothing, whatever
    capability map and profile id it is given. *)
Theorem getCapability_invoker_modes zcaps profileId st :
  let resolve :=
    getCapability W id profileAgentId zcaps profileId capabilityInvoker in
  let st0 := ensure_zcap_cache namespace st in
  (forall promise,
     capability_requests (_requests st) !! key = Some promise ->
     resolve st =
       (match promise with Ok zcap => Ok (Some zcap) | Err e => Err e end,
        st0)) /\
  (capability_requests (_requests st) !! key = None ->
   (forall cached,
      cache_get (clock W (trace st)) key (zcap_cache_of namespace st)
      = Some cached ->
      resolve st = (Ok (Some cached), st0)) /\
   (cache_get (clock W (trace st)) key (zcap_cache_of namespace st) = None ->
    (forall e st1,
       _getInvocationSigner W (Some profileAgentId) "agent" st0
       = (Err e, st1) ->
       resolve st = (Err e, st1)) /\
    (forall agentSigner st1 base,
       _getInvocationSigner W (Some profileAgentId) "agent" st0
       = (Ok agentSigner, st1) ->
       base_capability id profileId zcaps = Some base ->
       (capabilityInvoker = "agent" ->
        resolve st = (Ok (Some base), zcap_stored W namespace key base st1))
       /\
       (capabilityInvoker = "local" ->
        forall localSigner st2 zid signature,
          _getInvocationSigner W None "local" st1 = (Ok localSigner, st2) ->
          let request :=
            Zcap (zcap_id base) (referenceId base) (allowedAction base)
              (tpl (signer_id W localSigner)) (invocationTarget base)
              (Some (CapObj base)) (proof base) in
          signDelegation W (trace st2) agentSigner request
          = Resolved (zid, signature) ->
          let delegated :=
            Zcap (Some zid) (referenceId base) (allowedAction base)
              (tpl (signer_id W localSigner)) (invocationTarget base)
              (Some (CapObj base)) (Some signature) in
          resolve st =
            (Ok (Some delegated),
             zcap_stored W namespace key delegated
               (logged (EvDelegate agentSigner request) st2))) /\
       (capabilityInvoker <> "local" -> capabilityInvoker <> "agent" ->
        resolve st
        = (Err (Error "Unsupported invoker for capability."), st1))))) /\
  (forall zcap st',
     zcap_caches_keep st ->
     resolve st = (Ok (Some zcap), st') ->
     forall zcaps' profileId',
       getCapability W id profileAgentId zcaps' profileId' capabilityInvoker
         st' = (Ok (Some zcap), st')).
Proof.
  intros resolve st0.
  assert (Hjoin : forall s promise,
            capability_requests (_requests s) !! key = Some promise ->
            forall zcaps' profileId',
              getCapability W id profileAgentId zcaps' profileId'
                capabilityInvoker s =
              (match promise with
               | Ok zcap => Ok (Some zcap)
               | Err e => Err e
               end, ensure_zcap_cache namespace s)).
  { intros s promise Hreq zcaps' profileId'.
    unfold getCapability. fold namespace key.
    unfold bind at 1 2, modify at 1, this.
    change (_requests (ensure_zcap_cache namespace s)) with (_requests s).
    rewrite Hreq. unfold bind, awaited, ret. destruct promise; reflexivity. }
  assert (Hget : cache_get (clock W (trace st0)) key
                   (zcap_cache_of namespace st0)
                 = cache_get (clock W (trace st)) key
                     (zcap_cache_of namespace st)).
  { unfold st0, ensure_zcap_cache. now rewrite zcap_cache_of_set. }
  split; [|split].
  - intros promise Hreq. apply Hjoin. exact Hreq.
  - intros Hreq. unfold resolve.
    rewrite (getCapability_owner zcaps profileId st Hreq).
    cbv zeta. fold st0. split.
    + intros cached Hhit. rewrite <- Hget in Hhit.
      rewrite (getCapability_request_hit _ _ _ _ Hhit). reflexivity.
    + intros Hmiss. rewrite <- Hget in Hmiss. split.
      * intros e st1 Hsigner.
        assert (Hrq : getCapability_request W id profileAgentId zcaps
                        profileId capabilityInvoker st0 = (Err e, st1)).
        { unfold getCapability_request. fold namespace key.
          unfold bind at 1 2, this, now. rewrite Hmiss.
          unfold bind at 1. rewrite Hsigner. reflexivity. }
        rewrite Hrq. reflexivity.
      * intros agentSigner st1 base Hsigner Hbase.
        destruct (base_capability_lookup _ _ _ Hbase) as [Hprofile Hbase'].
        rewrite (getCapability_request_miss zcaps profileId st0 agentSigner
                   st1 Hmiss Hsigner Hprofile).
        cbv zeta. rewrite Hbase'.
        split; [|split].
        -- intros E.
           replace (String.eqb capabilityInvoker "local") with false
             by (rewrite E; reflexivity).
           replace (String.eqb capabilityInvoker "agent") with true
             by (rewrite E; reflexivity).
           reflexivity.
        -- intros E localSigner st2 zid signature Hlocal Hsign.
           replace (String.eqb capabilityInvoker "local") with true
             by (rewrite E; reflexivity).
           erewrite bind_step.
           2:{ erewrite bind_step by exact Hlocal.
               rewrite utils_delegateCapability_run, Hsign. reflexivity. }
           reflexivity.
        -- intros Hl Ha.
           destruct (String.eqb_spec capabilityInvoker "local");
             [contradiction|].
           destruct (String.eqb_spec capabilityInvoker "agent");
             [contradiction|].
           reflexivity.
  - intros zcap st' Hkeep Hrun zcaps' profileId'. unfold resolve in Hrun.
    destruct (capability_requests (_requests st) !! key) as [promise|]
      eqn:Hreq.
    + rewrite (Hjoin st promise Hreq) in Hrun.
      destruct promise as [z|e]; inversion Hrun; subst.
      rewrite (Hjoin _ (Ok zcap)) by exact Hreq.
      now rewrite ensure_zcap_cache_twice.
    + rewrite (getCapability_owner zcaps profileId st Hreq) in Hrun.
      cbv zeta in Hrun.
      fold st0 in Hrun.
      destruct (getCapability_request W id profileAgentId zcaps profileId
                  capabilityInvoker st0) as [[z|e] s] eqn:Hrequest;
        inversion Hrun; subst.
      destruct (getCapability_request_Ok zcaps profileId st0 zcap st')
        as [Hns Hcached].
      * cbn. rewrite lookup_insert_eq. discriminate.
      * unfold st0, ensure_zcap_cache. rewrite zcap_cache_of_set.
        now apply zcap_cache_of_age.
      * exact Hrequest.
      * assert (Hreq' : capability_requests (_requests st') !! key = None).
        { rewrite (getCapability_request_requests _ _ _ _ _ Hrequest).
          exact Hreq. }
        rewrite (getCapability_owner zcaps' profileId' st' Hreq').
        cbv zeta. rewrite (ensure_zcap_cache_present _ _ Hns).
        rewrite (getCapability_request_hit _ _ _ _ (Hcached _)).
        reflexivity.
Qed.

End GetCapability.

Lemma getCapability_invoker_modes_witness :
  let base := Demo.invocationKey Demo.profileId in
  let zcaps := [(Demo.profileId +:+ "-key-capabilityInvocation", base)] in
  exists agentSigner request st',
    getCapability Demo.world PROFILE_INVOCATION_ZCAP_REFERENCE_ID
      Demo.agentId zcaps (Some Demo.profileId) "local" Demo.attached
    = (Ok (Some (Zcap (Some "urn:zcap:3") (referenceId base)
                   (allowedAction base) "did:key:z6MkAccount#z6MkAccount"
                   (invocationTarget base) (Some (CapObj base))
                   (Some "signed"))), st') /\
    last (trace st') = Some (EvDelegate agentSigner request) /\
    agentSigner =
      AsymmetricKey (Some (Demo.agentKey "did:key:z6MkAccount"))
        (CapabilityAgentSigner "did:key:z6MkAccount#z6MkAccount") /\
    parentCapability request = Some (CapObj base) /\
    zcap_id request = zcap_id base.
Proof.
  intros base zcaps.
  destruct (getCapability_invoker_modes Demo.world
              PROFILE_INVOCATION_ZCAP_REFERENCE_ID Demo.agentId "local" zcaps
              (Some Demo.profileId) Demo.attached) as (_ & Hown & _).
  destruct Hown as (_ & Hmiss); [vm_compute; reflexivity|].
  destruct Hmiss as (_ & Hresolve); [vm_compute; reflexivity|].
  edestruct Hresolve as (_ & Hlocal & _).
  - vm_compute. reflexivity.
  - vm_compute. reflexivity.
  - eexists _, _, _. split.
    + erewrite (Hlocal eq_refl); cycle 1.
      * vm_compute. reflexivity.
      * vm_compute. reflexivity.
      * reflexivity.
    + split; [vm_compute; reflexivity|].
      split; [reflexivity|]. split; reflexivity.
Defined.

(** C5 as stated fails for a call that hits the cache.  After a call for
    ['user-edv-kak'] with invoker ['agent'], a second call for the same
    agent and id whose capability map holds another capability under that
    id returns the first one, not the base capability of its map.  And
    after a call for ['user-edv-kak'] with invoker ['local'], a call for
    ['user-edv'] with the invoker ['kak-local'], which has the same key,
    returns the delegated capability instead of throwing the
    unsupported-invoker error. *)
Lemma getCapability_hit_ignores_map_and_invoker :
  let first := Demo.edvZcap "user-edv-kak" "X25519KeyAgreementKey2019" in
  let second := Demo.edvZcap "user-edv-kak" "Sha256HmacKey2019" in
  let other := Demo.edvZcap "user-edv" "urn:edv:documents" in
  let after_agent :=
    snd (getCapability Demo.world "user-edv-kak" Demo.agentId
           [("user-edv-kak", first)] None "agent" Demo.attached) in
  let after_local :=
    snd (getCapability Demo.world "user-edv-kak" Demo.agentId
           [("user-edv-kak", first)] None "local" Demo.attached) in
  (base_capability "user-edv-kak" None [("user-edv-kak", second)]
   = Some second /\
   second <> first /\
   fst (getCapability Demo.world "user-edv-kak" Demo.agentId
          [("user-edv-kak", second)] None "agent" after_agent)
   = Ok (Some first)) /\
  (base_capability "user-edv" None [("user-edv", other)] = Some other /\
   exists delegated,
     fst (getCapability Demo.world "user-edv" Demo.agentId
            [("user-edv", other)] None "kak-local" after_local)
     = Ok (Some delegated) /\
     parentCapability delegated = Some (CapObj first)).
Proof.
  cbv zeta. split.
  - split; [reflexivity|]. split; [distinct|]. vm_compute. reflexivity.
  - split; [reflexivity|]. eexists. split; vm_compute; reflexivity.
Qed.

(** ** Where errors come from *)

Lemma quiet_lookup {A} (m : gmap string (result A)) k promise :
  map_Forall (fun _ => quiet) m -> m !! k = Some promise -> quiet promise.
Proof. intros H E. exact (H _ _ E). Qed.

Lemma returns_ret {A} (a : A) (Q : A -> Prop) : Q a -> returns (ret a) Q.
Proof. intros H st r st' Hq E. inversion E; subst. auto. Qed.

Lemma returns_throw {A} e (Q : A -> Prop) :
  is_not_authorized e = false -> returns (throw e) Q.
Proof. intros H st r st' Hq E. inversion E; subst. auto. Qed.

Lemma returns_bind {A B} (m : M A) (k : A -> M B) Q1 (Q : B -> Prop) :
  returns m Q1 -> (forall a, Q1 a -> returns (k a) Q) ->
  returns (bind m k) Q.
Proof.
  intros Hm Hk st r st' Hq E. unfold bind in E.
  destruct (m st) as [[a|e] st1] eqn:Em.
  - destruct (Hm _ _ _ Hq Em) as [Hq1 Ha]. exact (Hk a Ha _ _ _ Hq1 E).
  - inversion E; subst. exact (Hm _ _ _ Hq Em).
Qed.

Lemma returns_weaken {A} (m : M A) (Q Q' : A -> Prop) :
  returns m Q -> (forall a, Q a -> Q' a) -> returns m Q'.
Proof.
  intros Hm HQ st r st' Hq E. destruct (Hm _ _ _ Hq E) as [Hq' Hr].
  split; [exact Hq'|]. destruct r; auto.
Qed.

Lemma returns_any {A} (m : M A) Q : returns m Q -> returns m (fun _ => True).
Proof. intros H. apply (returns_weaken _ _ _ H). auto. Qed.

(** The state read by [this] is one whose requests are quiet. *)
Lemma returns_this : returns this requests_quiet.
Proof. intros st r st' Hq E. inversion E; subst. auto. Qed.

Lemma returns_modify f :
  (forall st, requests_quiet st -> requests_quiet (f st)) ->
  returns (modify f) (fun _ => True).
Proof. intros Hf st r st' Hq E. inversion E; subst. auto. Qed.

Lemma returns_now W : returns (now W) (fun _ => True).
Proof. intros st r st' Hq E. inversion E; subst. auto. Qed.

Lemma returns_await {A} ev (ask : list event -> response A) :
  returns (await ev ask) (fun _ => True).
Proof.
  intros st r st' Hq E. unfold await in E.
  destruct (ask (trace st)); inversion E; subst; auto.
Qed.

Lemma returns_call {A} ev (ask : list event -> response A) :
  returns (call ev ask) quiet.
Proof.
  intros st r st' Hq E. unfold call in E. inversion E; subst.
  split; [exact Hq|]. destruct (ask (trace st)); reflexivity.
Qed.

Lemma returns_awaited {A} (promise : result A) :
  quiet promise -> returns (awaited promise) (fun _ => True).
Proof.
  intros Hp st r st' Hq E. inversion E; subst.
  split; [exact Hq|]. destruct r; [exact I | exact Hp].
Qed.

Lemma returns_deref {A} (x : option A) base prop :
  returns (deref x base prop) (fun _ => True).
Proof. intros st r st' Hq E. destruct x; inversion E; subst; auto. Qed.

Lemma returns_assert x name :
  returns (assert_nonEmptyString x name) (fun _ => True).
Proof.
  intros st r st' Hq E. unfold assert_nonEmptyString in E.
  destruct x as [s|]; [destruct (String.eqb s EmptyString)|];
    inversion E; subst; auto.
Qed.

Lemma returns_finally {A} (m : M A) f Q :
  returns m Q -> returns f (fun _ => True) -> returns (finally m f) Q.
Proof.
  intros Hm Hf st r st' Hq E. unfold finally in E.
  destruct (m st) as [r1 st1] eqn:Em.
  destruct (Hm _ _ _ Hq Em) as [Hq1 Hr1].
  destruct (f st1) as [[u|e] st2] eqn:Ef;
    destruct (Hf _ _ _ Hq1 Ef) as [Hq2 Hr2]; inversion E; subst; auto.
Qed.

Lemma returns_settle {A} (m : M A) Q :
  returns m Q ->
  returns (settle m)
    (fun r => match r with
              | Ok a => Q a
              | Err e => is_not_authorized e = false
              end).
Proof.
  intros Hm st r st' Hq E. unfold settle in E.
  destruct (m st) as [r0 st0] eqn:Em. inversion E; subst.
  exact (Hm _ _ _ Hq Em).
Qed.

Lemma returns_settle_all {A} (l : list (M A)) Q :
  Forall (fun m => returns m Q) l ->
  returns (settle_all l)
    (fun rs =>
       Forall (fun r => match r with
                        | Ok a => Q a
                        | Err e => is_not_authorized e = false
                        end) rs /\
       length rs = length l).
Proof.
  induction 1 as [|m l Hm Hl IH]; cbn [settle_all].
  - apply returns_ret. auto.
  - eapply returns_bind; [apply returns_settle, Hm|]. intros r Hr.
    eapply returns_bind; [apply IH|]. intros rs [Hrs Hlen].
    apply returns_ret. cbn. auto.
Qed.

Lemma fulfilments_all {A} (rs : list (result A)) (P : result A -> Prop) Q :
  (forall a, P (Ok a) -> Q a) ->
  Forall P rs -> rejections rs = [] ->
  Forall Q (fulfilments rs) /\ length (fulfilments rs) = length rs.
Proof.
  intros HP. induction 1 as [|r rs Hr Hrs IH]; cbn; [auto|].
  destruct r as [a|e]; cbn; [|discriminate].
  intros Hrej. destruct (IH Hrej) as [H1 H2].
  split; [constructor; auto | f_equal; exact H2].
Qed.

Lemma rejections_all {A} (rs : list (result A)) (P : result A -> Prop) Q :
  (forall e, P (Err e) -> Q e) -> Forall P rs -> Forall Q (rejections rs).
Proof.
  intros HP. induction 1 as [|r rs Hr Hrs IH]; cbn; [constructor|].
  destruct r as [a|e]; cbn; auto.
Qed.

(** Whichever rejection comes first, it is one of the rejections. *)
Lemma first_rejection_In (e : js_error) es n : In (nth n (e :: es) e) (e :: es).
Proof.
  destruct (Nat.lt_ge_cases n (length (e :: es))) as [Hlt|Hge].
  - now apply nth_In.
  - rewrite nth_overflow by exact Hge. now left.
Qed.

Lemma returns_promise_all {A} W (l : list (M A)) Q :
  Forall (fun m => returns m Q) l ->
  returns (promise_all W l) (fun xs => Forall Q xs /\ length xs = length l).
Proof.
  intros Hl. unfold promise_all.
  eapply returns_bind; [apply (returns_settle_all _ _ Hl)|].
  intros rs [Hrs Hlen].
  eapply returns_bind; [apply returns_this|]. intros st _.
  destruct (rejections rs) as [|e es] eqn:Hrej.
  - apply returns_ret.
    destruct (fulfilments_all rs _ Q (fun a H => H) Hrs Hrej) as [H1 H2].
    split; [exact H1 | congruence].
  - apply returns_throw.
    pose proof (rejections_all rs _ (fun e => is_not_authorized e = false)
                  (fun e H => H) Hrs) as Hall.
    rewrite Hrej in Hall.
    exact (proj1 (List.Forall_forall _ _) Hall _ (first_rejection_In e es _)).
Qed.

Lemma returns_promise_all2 {A B} W (a : M A) (b : M B) QA QB :
  returns a QA -> returns b QB ->
  returns (promise_all2 W a b) (fun p => QA (fst p) /\ QB (snd p)).
Proof.
  intros Ha Hb. unfold promise_all2.
  eapply returns_bind; [apply returns_settle, Ha|]. intros ra Hra.
  eapply returns_bind; [apply returns_settle, Hb|]. intros rb Hrb.
  eapply returns_bind; [apply returns_this|]. intros st _.
  destruct ra as [x|ea], rb as [y|eb];
    first [apply returns_ret; auto | apply returns_throw; auto].
  destruct (first_rejection_In ea [eb] (settles_first W (trace st)))
    as [<- | [<- | []]]; assumption.
Qed.

Create HintDb returns.

(** One step of the analysis of a computation: a known operation is looked
    up in the hint database, anything else is taken apart. *)
Ltac returns_step :=
  lazymatch goal with
  | |- returns _ ?Q =>
      tryif is_evar Q then
        first [ solve [ eauto 2 with returns ]
              | let T := type of Q in
                match T with
                | ?A -> Prop => unify Q (fun _ : A => True)
                end ]
      else
        lazymatch goal with
        | |- returns (bind _ _) _ => eapply returns_bind; [|intros ? ?]
        | |- returns (ret _) _ => apply returns_ret
        | |- returns (throw _) _ => apply returns_throw; reflexivity
        | |- returns this _ => apply (returns_any _ _ returns_this)
        | |- returns (modify _) _ =>
            apply returns_modify; let H := fresh in intros ? H; exact H
        | |- returns (now _) _ => apply returns_now
        | |- returns (await _ _) _ => apply returns_await
        | |- returns (deref _ _ _) _ => apply returns_deref
        | |- returns (assert_nonEmptyString _ _) _ => apply returns_assert
        | |- returns (if ?c then _ else _) _ => destruct c
        | |- returns (match ?x with _ => _ end) _ => destruct x
        | |- returns _ _ =>
            first [ solve [ eauto 2 with returns ]
                  | solve [ eapply returns_any; eauto 2 with returns ] ]
        end
  end.

Ltac returns_auto := repeat returns_step; try exact I.

Lemma returns_utils_delegateCapability W s r :
  returns (utils_delegateCapability W s r) (fun _ => True).
Proof. unfold utils_delegateCapability. returns_auto. Qed.
#[local] Hint Resolve returns_utils_delegateCapability : returns.

(** Removing a request keeps the others quiet. *)
Lemma requests_quiet_delete_record k st :
  requests_quiet st ->
  requests_quiet
    (set_requests
       (set_record_requests (delete k (record_requests (_requests st)))
          (_requests st)) st).
Proof.
  intros (H1 & H2 & H3). repeat split; cbn; auto.
  now apply map_Forall_delete.
Qed.

Lemma requests_quiet_delete_capability k st :
  requests_quiet st ->
  requests_quiet
    (set_requests
       (set_capability_requests
          (delete k (capability_requests (_requests st))) (_requests st))
       st).
Proof.
  intros (H1 & H2 & H3). repeat split; cbn; auto.
  now apply map_Forall_delete.
Qed.

Lemma requests_quiet_delete_content k st :
  requests_quiet st ->
  requests_quiet
    (set_requests
       (set_content_requests (delete k (content_requests (_requests st)))
          (_requests st)) st).
Proof.
  intros (H1 & H2 & H3). repeat split; cbn; auto.
  now apply map_Forall_delete.
Qed.

Lemma returns__getAgentRecord_start W p :
  returns (_getAgentRecord_start W p)
    (fun entered =>
       match entered with
       | Returned _ => True
       | Joined promise | Started promise => quiet promise
       end).
Proof.
  unfold _getAgentRecord_start.
  eapply returns_bind; [returns_auto|]. intros ? _.
  eapply returns_bind; [apply returns_this|]. intros st Hq.
  eapply returns_bind; [apply returns_now|]. intros t _.
  destruct (cache_get _ _ _); [apply returns_ret; exact I|].
  destruct (record_requests (_requests st) !! _) as [promise|] eqn:E.
  { apply returns_ret. exact (quiet_lookup _ _ _ (proj1 Hq) E). }
  eapply returns_bind; [apply returns_call|]. intros promise Hp.
  eapply returns_bind.
  - apply returns_modify. intros s (H1 & H2 & H3). repeat split; cbn; auto.
    now apply map_Forall_insert_2.
  - intros ? ?. apply returns_ret. exact Hp.
Qed.

Lemma returns__getAgentRecord W p :
  returns (_getAgentRecord W p) (fun _ => True).
Proof.
  unfold _getAgentRecord.
  eapply returns_bind; [apply returns__getAgentRecord_start|].
  intros [record|promise|promise] Hp.
  - apply returns_ret. exact I.
  - apply returns_awaited. exact Hp.
  - apply returns_finally.
    + eapply returns_bind; [apply returns_awaited, Hp|]. intros record _.
      returns_auto.
    + apply returns_modify. intros st.
      apply requests_quiet_delete_record.
Qed.
#[local] Hint Resolve returns__getAgentRecord : returns.

Lemma returns__getInvocationSigner W a i :
  returns (_getInvocationSigner W a i) (fun _ => True).
Proof. unfold _getInvocationSigner. returns_auto. Qed.
#[local] Hint Resolve returns__getInvocationSigner : returns.

Lemma returns_getCapability_request W id a zcaps p i :
  returns (getCapability_request W id a zcaps p i) (fun _ => True).
Proof. unfold getCapability_request. returns_auto. Qed.
#[local] Hint Resolve returns_getCapability_request : returns.

(** [getCapability] never returns [undefined]: it returns a capability or
    throws. *)
Lemma returns_getCapability W id a zcaps p i :
  returns (getCapability W id a zcaps p i) (fun r => r <> None).
Proof.
  unfold getCapability.
  eapply returns_bind; [returns_auto|]. intros ? _.
  eapply returns_bind; [apply returns_this|]. intros st Hq.
  destruct (capability_requests (_requests st) !! _) as [promise|] eqn:E.
  - eapply returns_bind.
    + apply returns_awaited.
      exact (quiet_lookup _ _ _ (proj1 (proj2 Hq)) E).
    + intros zcap _. apply returns_ret. discriminate.
  - apply returns_finally.
    + eapply returns_bind; [apply returns_getCapability_request|].
      intros zcap _. apply returns_ret. discriminate.
    + apply returns_modify. intros s.
      apply requests_quiet_delete_capability.
Qed.
#[local] Hint Resolve returns_getCapability : returns.

Lemma returns_key_from_zcap name z s :
  returns (key_from_zcap name z s) (fun _ => True).
Proof. unfold key_from_zcap. returns_auto. Qed.
#[local] Hint Resolve returns_key_from_zcap : returns.

Lemma returns__getAgentContent W r i :
  returns (_getAgentContent W r i) (fun _ => True).
Proof.
  unfold _getAgentContent.
  eapply returns_bind; [returns_auto|]. intros ? _.
  eapply returns_bind; [apply returns_this|]. intros st0 _.
  eapply returns_bind; [apply returns_now|]. intros t _.
  destruct (cache_get _ _ _); [apply returns_ret; exact I|].
  eapply returns_bind; [apply returns_getCapability|]. intros capability _.
  eapply returns_bind; [apply returns_getCapability|]. intros userKak _.
  eapply returns_bind; [apply returns__getInvocationSigner|].
  intros invocationSigner _.
  destruct capability as [capability|]; [|apply returns_throw; reflexivity].
  eapply returns_bind; [apply returns_this|]. intros st Hq.
  destruct (content_requests (_requests st) !! _) as [promise|] eqn:E.
  - apply returns_awaited.
    exact (quiet_lookup _ _ _ (proj2 (proj2 Hq)) E).
  - apply returns_finally.
    + returns_auto.
    + apply returns_modify. intros s.
      apply requests_quiet_delete_content.
Qed.
#[local] Hint Resolve returns__getAgentContent : returns.

Lemma returns_getAgent W p : returns (getAgent W p) (fun _ => True).
Proof. unfold getAgent. returns_auto. Qed.
#[local] Hint Resolve returns_getAgent : returns.

Lemma returns_getProfile W id i : returns (getProfile W id i) (fun _ => True).
Proof.
  unfold getProfile.
  eapply returns_bind; [apply returns_assert|]. intros pid _.
  eapply returns_bind; [apply returns_getAgent|]. intros agent _.
  eapply returns_bind; [apply returns_getCapability|]. intros profileDoc Hdoc.
  apply returns_bind with (Q1 := fun r : option zcap => r <> None).
  { destruct profileDoc; [apply returns_ret; discriminate | contradiction]. }
  intros capability Hcap.
  eapply returns_bind; [apply returns_getCapability|]. intros userKakZcap _.
  eapply returns_bind; [apply returns__getInvocationSigner|].
  intros signer _.
  destruct capability; [|contradiction]. returns_auto.
Qed.

Lemma returns_getCapabilities W ids agent i :
  returns (getCapabilities W ids agent i)
    (fun rs => Forall (fun r => r <> None) rs /\ length rs = length ids).
Proof.
  unfold getCapabilities.
  eapply returns_weaken.
  - apply returns_promise_all with (Q := fun r : option zcap => r <> None).
    apply Forall_map, Forall_forall. intros id _. apply returns_getCapability.
  - cbn. intros rs [H1 H2]. split; [exact H1|]. now rewrite H2, length_map.
Qed.

Lemma three_capabilities (rs : list (option zcap)) :
  Forall (fun r => r <> None) rs -> length rs = 3 ->
  exists a b c, rs = [Some a; Some b; Some c].
Proof.
  intros H Hlen.
  destruct rs as [|[a|] [|[b|] [|[c|] [|]]]]; try discriminate;
    repeat match goal with
           | H : Forall _ (_ :: _) |- _ => inversion H; subst; clear H
           end; try contradiction.
  eauto.
Qed.

(** The check [if(!(documentsZcap && hmacZcap && kakZcap))] never fires. *)
Lemma returns_getProfileEdvAccess W p prefix i :
  returns (getProfileEdvAccess W p prefix i) (fun _ => True).
Proof.
  unfold getProfileEdvAccess.
  eapply returns_bind; [apply returns_assert|]. intros pid _.
  eapply returns_bind; [apply returns_getAgent|]. intros agent _.
  eapply returns_bind; [apply returns_getCapabilities|]. intros rs [Hrs Hlen].
  destruct (three_capabilities rs Hrs Hlen) as (a & b & c & ->).
  eapply returns_bind; [apply returns__getInvocationSigner|].
  intros signer _.
  cbn [element lookup list_lookup mjoin option_join]. returns_auto.
Qed.

(** Neither does [if(!(capability && userKak && userHmac))]. *)
Lemma returns_getAccessManager W p i :
  returns (getAccessManager W p i) (fun _ => True).
Proof.
  unfold getAccessManager.
  eapply returns_bind; [apply returns_assert|]. intros pid _.
  eapply returns_bind;
    [apply (returns_promise_all2 _ _ _ _ _ (returns_getProfile _ _ _)
              (returns_getAgent _ _))|].
  intros [profile agent] _. cbn [fst snd].
  eapply returns_bind; [apply returns_getCapabilities|]. intros rs [Hrs Hlen].
  destruct (three_capabilities rs Hrs Hlen) as (a & b & c & ->).
  eapply returns_bind; [apply returns__getInvocationSigner|].
  intros signer _.
  cbn [element lookup list_lookup mjoin option_join]. returns_auto.
Qed.

(** ** Capabilities that cannot be resolved *)

(** The reference ids of the EDV capabilities are not the well-known id of
    the profile's invocation key. *)
Lemma edv_reference_is_not_the_invocation_key prefix suffix :
  In suffix ["-edv-documents"; "-edv-kak"; "-edv-hmac"] ->
  String.eqb (prefix +:+ suffix) PROFILE_INVOCATION_ZCAP_REFERENCE_ID = false.
Proof.
  intros Hin. apply String.eqb_neq.
  unfold PROFILE_INVOCATION_ZCAP_REFERENCE_ID. intros H.
  destruct Hin as [<- | [<- | [<- | []]]];
    repeat (destruct prefix as [|? prefix]; cbn in H;
            [discriminate H | first [discriminate H | injection H as _ H]]).
Qed.

Lemma not_authorized_message_is_not_authorized verb a p :
  is_not_authorized (Error (not_authorized_message verb a p)) = true.
Proof. reflexivity. Qed.

(** When a resolution rejects, [Promise.all] rejects with the error of a
    resolution that rejected. *)
Lemma getCapabilities_rejects W ids agent invoker st outcomes st' :
  settle_all
    (map (fun id =>
            getCapability W id (content_id agent) (content_zcaps agent) None
              invoker) ids) st = (Ok outcomes, st') ->
  rejections outcomes <> [] ->
  exists e,
    In e (rejections outcomes) /\
    getCapabilities W ids agent invoker st = (Err e, st').
Proof.
  intros Hs Hrej. unfold getCapabilities.
  destruct (promise_all_settle_all W
              (map (fun id =>
                      getCapability W id (content_id agent)
                        (content_zcaps agent) None invoker) ids) st)
    as (rs & st2 & Hs' & _ & ->).
  rewrite Hs in Hs'. inversion Hs'; subst.
  destruct (rejections rs) as [|e es]; [contradiction|].
  eexists. split; [apply first_rejection_In | reflexivity].
Qed.

(** A capability that is absent from the agent's map: with no request in
    flight, on a cache miss and with the agent's signer resolved,
    [getCapability] throws its own error, which names the agent and the
    reference id. *)
Lemma getCapability_missing W id agentId zcaps profileId invoker st
    agentSigner st1 :
  let namespace := "profileAgent-" +:+ agentId +:+ "-zcaps" in
  let key := namespace +:+ "-" +:+ id +:+ "-" +:+ invoker in
  String.eqb id PROFILE_INVOCATION_ZCAP_REFERENCE_ID = false ->
  obj_get id zcaps = None ->
  capability_requests (_requests st) !! key = None ->
  cache_get (clock W (trace st)) key (zcap_cache_of namespace st) = None ->
  _getInvocationSigner W (Some agentId) "agent"
    (ensure_zcap_cache namespace st) = (Ok agentSigner, st1) ->
  getCapability W id agentId zcaps profileId invoker st
  = (Err (Error (missing_zcap_message agentId id)), st1).
Proof.
  intros namespace key Hid Habsent Hreq Hmiss Hsigner.
  rewrite (getCapability_owner W id agentId invoker zcaps profileId st Hreq).
  cbv zeta. fold namespace.
  rewrite (getCapability_request_miss W id agentId invoker zcaps profileId
             (ensure_zcap_cache namespace st) agentSigner st1).
  - cbv zeta. rewrite Hid, Habsent. reflexivity.
  - unfold ensure_zcap_cache. rewrite zcap_cache_of_set. exact Hmiss.
  - exact Hsigner.
  - rewrite Hid. discriminate.
Qed.

(** C6 (the code departs from the claim).  When a required capability
    cannot be resolved for the profile agent, [getProfileEdvAccess] and
    [getAccessManager] do fail, but with the error of a resolution that
    failed (the one that fails first, when several do), not with an
    authorization error that names the profile agent and the profile.  For
    a capability that is absent from the agent's capability map, that is
    the error of [getCapability], [The agent "<agent id>" does not have the
    zcap: "<reference id>"]: it names the profile agent and the reference
    id.  The callers' own checks, which would throw [Profile agent "<agent
    id>" is not authorized to ... "<profile id>".], come after the
    resolutions and are never reached with a capability missing: that error
    is never thrown. *)
Theorem unresolved_capability_fails W (profileId : string) capabilityInvoker :
  profileId <> EmptyString ->
  let resolutions agent ids :=
    map (fun id =>
           getCapability W id (content_id agent) (content_zcaps agent) None
             capabilityInvoker) ids in
  (forall referenceIdPrefix st profileAgent st1 outcomes st2,
     getAgent W (Some profileId) st = (Ok profileAgent, st1) ->
     settle_all
       (resolutions profileAgent
          [tpl referenceIdPrefix +:+ "-edv-documents";
           tpl referenceIdPrefix +:+ "-edv-kak";
           tpl referenceIdPrefix +:+ "-edv-hmac"]) st1
     = (Ok outcomes, st2) ->
     rejections outcomes <> [] ->
     exists e,
       In e (rejections outcomes) /\
       getProfileEdvAccess W (Some profileId) referenceIdPrefix
         capabilityInvoker st = (Err e, st2)) /\
  (forall st profile profileAgent st1 outcomes st2,
     promise_all2 W (getProfile W (Some profileId) "local")
       (getAgent W (Some profileId)) st
     = (Ok (profile, profileAgent), st1) ->
     settle_all
       (resolutions profileAgent [EDVS.userDocs; EDVS.userKak; EDVS.userHmac])
       st1 = (Ok outcomes, st2) ->
     rejections outcomes <> [] ->
     exists e,
       In e (rejections outcomes) /\
       getAccessManager W (Some profileId) capabilityInvoker st
       = (Err e, st2)) /\
  (forall prefix suffix agentId zcaps st agentSigner st1,
     In suffix ["-edv-documents"; "-edv-kak"; "-edv-hmac"] ->
     let reference := prefix +:+ suffix in
     let namespace := "profileAgent-" +:+ agentId +:+ "-zcaps" in
     let key :=
       namespace +:+ "-" +:+ reference +:+ "-" +:+ capabilityInvoker in
     obj_get reference zcaps = None ->
     capability_requests (_requests st) !! key = None ->
     cache_get (clock W (trace st)) key (zcap_cache_of namespace st) = None ->
     _getInvocationSigner W (Some agentId) "agent"
       (ensure_zcap_cache namespace st) = (Ok agentSigner, st1) ->
     getCapability W reference agentId zcaps None capabilityInvoker st
     = (Err (Error (missing_zcap_message agentId reference)), st1)) /\
  (forall referenceIdPrefix st e st',
     requests_quiet st ->
     getProfileEdvAccess W (Some profileId) referenceIdPrefix
       capabilityInvoker st = (Err e, st') \/
     getAccessManager W (Some profileId) capabilityInvoker st
     = (Err e, st') ->
     forall verb a p, e <> Error (not_authorized_message verb a p)).
Proof.
  intros Hid resolutions. split; [|split; [|split]].
  - intros prefix st agent st1 outcomes st2 Hagent Hs Hrej.
    destruct (getCapabilities_rejects _ _ _ _ _ _ _ Hs Hrej)
      as (e & Hin & Hcaps).
    exists e. split; [exact Hin|]. unfold getProfileEdvAccess.
    rewrite (bind_step _ _ _ _ _ (assert_nonEmptyString_pass _ _ _ Hid)).
    cbv zeta. rewrite (bind_step _ _ _ _ _ Hagent).
    apply bind_fail. exact Hcaps.
  - intros st profile agent st1 outcomes st2 Hboth Hs Hrej.
    destruct (getCapabilities_rejects _ _ _ _ _ _ _ Hs Hrej)
      as (e & Hin & Hcaps).
    exists e. split; [exact Hin|]. unfold getAccessManager.
    rewrite (bind_step _ _ _ _ _ (assert_nonEmptyString_pass _ _ _ Hid)).
    rewrite (bind_step _ _ _ _ _ Hboth).
    cbv zeta. cbn [fst snd]. apply bind_fail. exact Hcaps.
  - intros prefix suffix agentId zcaps st agentSigner st1 Hsuffix reference
      namespace key Habsent Hreq Hmiss Hsigner.
    apply getCapability_missing with agentSigner; try assumption.
    now apply edv_reference_is_not_the_invocation_key.
  - intros prefix st e st' Hq Hrun verb a p ->.
    assert (H : is_not_authorized
                  (Error (not_authorized_message verb a p)) = false).
    { destruct Hrun as [Hrun|Hrun].
      - exact (proj2 (returns_getProfileEdvAccess _ _ _ _ _ _ _ Hq Hrun)).
      - exact (proj2 (returns_getAccessManager _ _ _ _ _ _ Hq Hrun)). }
    rewrite not_authorized_message_is_not_authorized in H. discriminate.
Qed.

Lemma unresolved_capability_fails_witness :
  let documents := Demo.edvZcap "user-edv-documents" "urn:edv:documents" in
  let kak := Demo.edvZcap "user-edv-kak" "X25519KeyAgreementKey2019" in
  let hmac := Demo.edvZcap "user-edv-hmac" "Sha256HmacKey2019" in
  let profileDoc := Demo.edvZcap "profile-edv-document" "urn:edv:document" in
  let profile :=
    Content Demo.profileId (TypeList ["User"; "Profile"]) None [] [] in
  let missing reference :=
    Error (missing_zcap_message Demo.agentId reference) in
  let access world :=
    fst (getProfileEdvAccess world (Some Demo.profileId) (Some "user")
           "local" Demo.attached) in
  (exists e st',
     getProfileEdvAccess Demo.world (Some Demo.profileId) (Some "user")
       "local" Demo.attached = (Err e, st') /\
     In e [missing "user-edv-documents"; missing "user-edv-kak";
           missing "user-edv-hmac"] /\
     includes (missing_zcap_message Demo.agentId "user-edv-documents")
       Demo.profileId = false) /\
  access Demo.world = Err (missing "user-edv-documents") /\
  access (Demo.backend [("user-edv-kak", kak); ("user-edv-hmac", hmac)] None)
  = Err (missing "user-edv-documents") /\
  access (Demo.backend
            [("user-edv-documents", documents); ("user-edv-hmac", hmac)]
            None)
  = Err (missing "user-edv-kak") /\
  access (Demo.backend
            [("user-edv-documents", documents); ("user-edv-kak", kak)] None)
  = Err (missing "user-edv-hmac") /\
  fst (getAccessManager
         (Demo.backend
            [("profile-edv-document", profileDoc); ("user-edv-kak", kak)]
            (Some profile))
         (Some Demo.profileId) "local" Demo.attached)
  = Err (missing "user-edv-documents").
Proof.
  cbv zeta. split.
  - destruct (unresolved_capability_fails Demo.world Demo.profileId "local"
                ltac:(distinct)) as (Hedv & _).
    edestruct (Hedv (Some "user") Demo.attached) as (e & Hin & Hrun).
    + vm_compute. reflexivity.
    + vm_compute. reflexivity.
    + vm_compute. discriminate.
    + exists e. eexists. split; [exact Hrun|].
      split; [exact Hin | vm_compute; reflexivity].
  - do 4 (split; [vm_compute; reflexivity|]). vm_compute. reflexivity.
Defined.

(** ** Concurrent calls share one request *)

Section CoalescingFacts.

Import Coalescing.

Context {V : Type}.
Implicit Types (l : loop V) (acts : list (action V)).

Ltac finish :=
  repeat split; cbn; auto; try discriminate;
  try (intros ? ?; congruence);
  try (rewrite count_occ_app; cbn;
       destruct (string_dec _ _); [contradiction|lia]).

Lemma step_registered key p a l :
  registered key p l ->
  match a with
  | Settle promise _ => _requests l !! key <> Some promise
  | GetCapabilityFinally k | GetAgentRecordResume k _ => k <> key
  | _ => True
  end ->
  registered key p (snd (step a l)) /\
  (forall o, fst (step a l) = Some (key, o) -> o = inr p) /\
  count_occ string_dec (executions (snd (step a l))) key
  = count_occ string_dec (executions l) key.
Proof.
  intros (Hr & Hp & Hc) Ha.
  assert (Hlt : p < length (promises l)) by (eapply lookup_lt_Some; eauto).
  destruct a as [k|k|k|k q|q o]; cbn.
  - unfold getCapability_call, enter.
    destruct (String.eqb_spec k key) as [->|Hne].
    + rewrite Hr. cbn. repeat split; auto. intros o H. congruence.
    + destruct (_requests l !! k) eqn:Ek; cbn.
      * repeat split; auto. intros o H. congruence.
      * repeat split; cbn.
        -- rewrite lookup_insert_ne by auto. exact Hr.
        -- rewrite lookup_app_l by auto. exact Hp.
        -- exact Hc.
        -- intros o H. congruence.
        -- rewrite count_occ_app. cbn.
           destruct (string_dec k key); [contradiction|]. lia.
  - unfold getCapability_finally, leave, registered. cbn.
    rewrite lookup_delete_ne by auto. repeat split; auto. discriminate.
  - unfold _getAgentRecord_call, enter.
    destruct (String.eqb_spec k key) as [->|Hne].
    + rewrite Hc, Hr. cbn. repeat split; auto. intros o H. congruence.
    + destruct (records l !! k); cbn.
      { repeat split; auto. intros o H. congruence. }
      destruct (_requests l !! k) eqn:Ek; cbn.
      * repeat split; auto. intros o H. congruence.
      * repeat split; cbn.
        -- rewrite lookup_insert_ne by auto. exact Hr.
        -- rewrite lookup_app_l by auto. exact Hp.
        -- exact Hc.
        -- intros o H. congruence.
        -- rewrite count_occ_app. cbn.
           destruct (string_dec k key); [contradiction|]. lia.
  - unfold _getAgentRecord_resume, leave, registered.
    destruct (promises l !! q) as [[| |]|]; cbn;
      rewrite ?lookup_delete_ne, ?lookup_insert_ne by auto;
      repeat split; auto; discriminate.
  - unfold settle, registered.
    destruct (promises l !! q) as [[| |]|] eqn:Eq; cbn;
      repeat split; auto; try discriminate.
    rewrite list_lookup_insert_ne; [exact Hp|]. intros ->. apply Ha. exact Hr.
Qed.

Lemma run_registered key p acts : forall l,
  registered key p l -> in_flight key acts l ->
  registered key p (snd (run acts l)) /\
  (forall o, In (key, o) (fst (run acts l)) -> o = inr p) /\
  count_occ string_dec (executions (snd (run acts l))) key
  = count_occ string_dec (executions l) key.
Proof.
  induction acts as [|a acts IH]; intros l Hreg Hfl; cbn.
  - split; [exact Hreg|]. split; [|reflexivity]. intros o [].
  - destruct Hfl as [Ha Hfl].
    destruct (step_registered key p a l Hreg Ha)
      as (Hreg' & Hobs & Hcount).
    destruct (step a l) as [o l1] eqn:Es. cbn in *.
    destruct (IH l1 Hreg' Hfl) as (Hreg2 & Hobs2 & Hcount2).
    destruct (run acts l1) as [os l2]. cbn in *.
    repeat split; try apply Hreg2.
    + intros o' Hin. destruct o as [o|]; [destruct Hin as [->|Hin]|]; auto.
    + congruence.
Qed.

Lemma step_unregistered key a l :
  unregistered key l -> calls key a = false ->
  match a with
  | GetCapabilityFinally k | GetAgentRecordResume k _ => k <> key
  | _ => True
  end ->
  unregistered key (snd (step a l)) /\
  (forall o, fst (step a l) <> Some (key, o)) /\
  count_occ string_dec (executions (snd (step a l))) key
  = count_occ string_dec (executions l) key.
Proof.
  intros (Hr & Hc) Hcall Ha. unfold unregistered.
  destruct a as [k|k|k|k q|q o]; cbn in *.
  - apply String.eqb_neq in Hcall.
    unfold getCapability_call, enter.
    destruct (_requests l !! k) eqn:Ek; cbn;
      rewrite ?lookup_insert_ne by auto; finish.
  - unfold getCapability_finally, leave. cbn.
    rewrite lookup_delete_ne by auto. finish.
  - apply String.eqb_neq in Hcall.
    unfold _getAgentRecord_call, enter.
    destruct (records l !! k); cbn; [finish|].
    destruct (_requests l !! k) eqn:Ek; cbn;
      rewrite ?lookup_insert_ne by auto; finish.
  - unfold _getAgentRecord_resume, leave.
    destruct (promises l !! q) as [[| |]|]; cbn;
      rewrite ?lookup_delete_ne, ?lookup_insert_ne by auto; finish.
  - unfold settle.
    destruct (promises l !! q) as [[| |]|]; cbn; finish.
Qed.

Lemma first_call_registers key a l :
  unregistered key l -> calls key a = true ->
  let p := length (promises l) in
  registered key p (snd (step a l)) /\
  fst (step a l) = Some (key, inr p) /\
  count_occ string_dec (executions (snd (step a l))) key
  = S (count_occ string_dec (executions l) key).
Proof.
  intros (Hr & Hc) Hcall. unfold registered.
  destruct a as [k|k|k|k q|q o]; cbn in Hcall; try discriminate;
    apply String.eqb_eq in Hcall; subst k; cbn;
    unfold getCapability_call, _getAgentRecord_call, enter;
    rewrite ?Hc, Hr; cbn;
    rewrite lookup_insert_eq, lookup_app_r, Nat.sub_diag, count_occ_app
      by lia;
    cbn; destruct (string_dec key key); try contradiction;
    repeat split; auto; lia.
Qed.

(** C8. Take any schedule that contains calls of [getCapability] or
    [_getAgentRecord] for one key, starts with nothing registered or cached
    for that key, and stays before the settling of the request (other keys
    may be called, settled and cleaned up in between).  Then the underlying
    work for the key is started exactly once, every call for the key holds
    the same promise, and the request is still registered and pending.
    When that promise then settles, fulfilled or rejected, all callers see
    that one outcome, and the owner's continuation removes the key from
    [_requests]. *)
Theorem concurrent_calls_coalesce key acts : forall l,
  _requests l !! key = None ->
  records l !! key = None ->
  in_flight key acts l ->
  existsb (calls key) acts = true ->
  exists promise,
    (forall o, In (key, o) (fst (run acts l)) -> o = inr promise) /\
    count_occ string_dec (executions (snd (run acts l))) key
    = S (count_occ string_dec (executions l) key) /\
    _requests (snd (run acts l)) !! key = Some promise /\
    promises (snd (run acts l)) !! promise = Some Pending /\
    forall outcome,
      outcome <> Pending ->
      let settled := settle promise outcome (snd (run acts l)) in
      promises settled !! promise = Some outcome /\
      _requests (getCapability_finally key settled) !! key = None /\
      _requests (_getAgentRecord_resume key promise settled) !! key = None.
Proof.
  induction acts as [|a acts IH]; intros l Hr Hc Hfl Hcalls;
    [discriminate|].
  destruct Hfl as [Ha Hfl]. cbn in Hcalls.
  assert (Hfinish : forall p l',
    registered key p l' ->
    forall outcome,
      outcome <> Pending ->
      let settled := settle p outcome l' in
      promises settled !! p = Some outcome /\
      _requests (getCapability_finally key settled) !! key = None /\
      _requests (_getAgentRecord_resume key p settled) !! key = None).
  { intros p l' (Hr' & Hp' & _) outcome Hout. unfold settle.
    rewrite Hp'. cbn.
    assert (Hlt : p < length (promises l')) by (eapply lookup_lt_Some; eauto).
    rewrite list_lookup_insert_eq by exact Hlt.
    split; [reflexivity|]. split.
    - apply lookup_delete_eq.
    - destruct outcome; [contradiction| |]; cbn; apply lookup_delete_eq. }
  destruct (calls key a) eqn:Ecall.
  - (* the first call for the key *)
    destruct (first_call_registers key a l (conj Hr Hc) Ecall)
      as (Hreg & Hobs & Hcount).
    destruct (run_registered key (length (promises l)) acts _ Hreg Hfl)
      as (Hreg2 & Hobs2 & Hcount2).
    exists (length (promises l)). cbn.
    destruct (step a l) as [o l1]. cbn in *.
    destruct (run acts l1) as [os l2]. cbn in *. subst o.
    split; [|split; [|split; [|split]]].
    + intros o [Ho|Ho]; [congruence|auto].
    + congruence.
    + apply Hreg2.
    + apply Hreg2.
    + apply Hfinish. exact Hreg2.
  - destruct (step_unregistered key a l (conj Hr Hc) Ecall)
      as ((Hr1 & Hc1) & Hobs & Hcount).
    { destruct a; auto. }
    cbn in Hcalls.
    destruct (IH (snd (step a l)) Hr1 Hc1 Hfl Hcalls) as (p & Hp).
    exists p. cbn.
    destruct (step a l) as [o l1]. cbn in *.
    destruct (run acts l1) as [os l2]. cbn in *.
    destruct Hp as (H1 & H2 & H3 & H4 & H5).
    split; [|split; [|split; [|split]]]; auto.
    + intros o' Hin. destruct o as [o|]; [destruct Hin as [->|Hin]|]; auto.
      exfalso. exact (Hobs _ eq_refl).
    + congruence.
Qed.

End CoalescingFacts.

Lemma concurrent_calls_coalesce_witness :
  let key := "profileAgent-did:key:z6MkAgent-zcaps-user-edv-kak-local" in
  let schedule : list (Coalescing.action nat) :=
    [Coalescing.GetCapability key;
     Coalescing.GetAgentRecord "agent-records-did:v1:test:abc";
     Coalescing.GetCapability key;
     Coalescing.Settle 1 (Coalescing.Fulfilled 7);
     Coalescing.GetAgentRecordResume "agent-records-did:v1:test:abc" 1;
     Coalescing.GetCapability key] in
  let start := Coalescing.Loop (V := nat) ∅ [] ∅ [] in
  exists promise,
    fst (Coalescing.run schedule start)
    = [(key, inr promise);
       ("agent-records-did:v1:test:abc", inr 1);
       (key, inr promise); (key, inr promise)] /\
    count_occ string_dec
      (Coalescing.executions (snd (Coalescing.run schedule start))) key = 1.
Proof.
  intros key schedule start.
  destruct (concurrent_calls_coalesce key schedule start)
    as (promise & Hobs & Hcount & _).
  - reflexivity.
  - reflexivity.
  - vm_compute. repeat split; discriminate.
  - reflexivity.
  - exists promise. split; [|exact Hcount].
    assert (Hp : @inr nat nat 0 = inr promise).
    { apply Hobs. vm_compute. left. reflexivity. }
    inversion Hp; subst. vm_compute. reflexivity.
Defined.
